(** * Weight lattices and weight spaces

    A shallow embedding of [sage/combinat/root_system/weight_space.py]:
    the class [WeightSpace] (construction, fundamental weights, simple
    roots, projection to the classical space, map to the ambient space)
    and its element class [WeightSpaceElement] (scalar product with the
    coroot lattice, dominance).

    Elements of a free module are Python dictionaries from basis labels
    to nonzero coefficients; they are finite maps here.  Exceptions are
    values of an error monad.  The root system, the Cartan type and the
    generic free module are collaborators of the class: the first two
    are records of the data the class reads from them, the third is the
    small library of section [FreeModule]. *)

From Stdlib Require Import ZArith Ring.
From stdpp Require Import gmap strings list fin_maps.

Local Open Scope Z_scope.
#[local] Set Warnings "-clear-no-such-hyp".

(** ** Basis labels

    A label is a Python value: a vertex of the Dynkin diagram (an
    integer, or a string for a relabelled diagram) or the string
    ["delta"]. *)

Inductive key := KInt (n : Z) | KStr (s : string).

Global Instance key_eq_dec : EqDecision key.
Proof. solve_decision. Defined.

Global Instance key_countable : Countable key.
Proof.
  refine (inj_countable'
    (λ k, match k with KInt n => inl n | KStr s => inr s end)
    (λ x, match x with inl n => KInt n | inr s => KStr s end) _).
  by intros [].
Defined.

Definition delta : key := KStr "delta".

(** ** Exceptions *)

Inductive message :=
  | not_in_index_set (k : key)   (* "{} is not in the index set" *)
  | delta_only_affine            (* "delta is only defined for affine weight spaces" *)
  | extended_only_affine         (* "extended weight lattices are only implemented for affine root systems" *)
  | not_in_coroot_space          (* "{} is not in the coroot space" *)
  | no_map_from_coweight.        (* "No implemented map from the coweight space to the ambient space" *)

Inductive exn :=
  | ValueError (m : message)
  | TypeError (m : message)
  | AttributeError
  | KeyError (k : key).

Inductive result (A : Type) := Ok (a : A) | Raise (e : exn).
Arguments Ok {A} a.
Arguments Raise {A} e.

Definition bind {A B} (r : result A) (f : A → result B) : result B :=
  match r with Ok a => f a | Raise e => Raise e end.

Notation "'let*' x := r 'in' k" := (bind r (λ x, k))
  (at level 10, x name, r at level 100, k at level 200,
   format "'[' 'let*'  x  :=  r  'in' ']' '/' k").

Fixpoint mapM {A B} (f : A → result B) (l : list A) : result (list B) :=
  match l with
  | [] => Ok []
  | a :: l' => let* b := f a in let* bs := mapM f l' in Ok (b :: bs)
  end.

(** The error taxonomy of the specification, as the exceptions the
    source raises. *)
Definition InvalidKey (k : key) : exn := ValueError (not_in_index_set k).
Definition InvalidConfiguration : exn := ValueError extended_only_affine.
Definition InvalidArgument : exn := ValueError not_in_coroot_space.
Definition UnsupportedOperation_delta : exn := ValueError delta_only_affine.
Definition UnsupportedOperation_ambient : exn := TypeError no_map_from_coweight.

(** ** The base ring

    The interface the class uses of [base_ring]: a commutative ring with
    decidable equality (sparse elements drop zero coefficients) and a
    comparison. *)

Class BaseRing (K : Type) := {
  rzero : K;
  rone : K;
  radd : K → K → K;
  rmul : K → K → K;
  rsub : K → K → K;
  ropp : K → K;
  rleb : K → K → bool;
  ring_eq_dec :: EqDecision K;
  ring_laws : ring_theory rzero rone radd rmul rsub ropp eq;
  ring_nontrivial : rone ≠ rzero
}.

(** [a >= b] *)
Definition rgeb {K} `{BaseRing K} (a b : K) : bool := rleb b a.

(** [K(c)] for a Python integer [c]. *)
Definition of_int {K} `{BaseRing K} (c : Z) : K :=
  InitialRing.gen_phiZ rzero rone radd rmul ropp c.

(** [sum(terms, start)]: Python adds from the left, starting at [start]. *)
Definition py_sum {K} `{BaseRing K} (terms : list K) (start : K) : K :=
  fold_left radd terms start.

#[export] Instance Z_ring : BaseRing Z := {|
  rzero := 0; rone := 1;
  radd := Z.add; rmul := Z.mul; rsub := Z.sub; ropp := Z.opp;
  rleb := Z.leb;
  ring_laws := InitialRing.Zth;
  ring_nontrivial := Z.neq_succ_diag_l 0
|}.

(** ** The generic free module *)

Section FreeModule.
Context {K : Type} `{BaseRing K}.

(** Modelled from the spec: the zero element of the generic
    free-module collaborator ([CombinatorialFreeModule], which is not in
    [weight_space.py]).  An element of a free module is a sparse mapping
    from basis keys to nonzero coefficients. *)
Definition zero : gmap key K := ∅.

(** Modelled from the spec: monomial construction from a basis key
    ([monomial] of the free-module collaborator). *)
Definition monomial (i : key) : gmap key K := {[ i := rone ]}.

(** Modelled from the spec: [x[i]] on an element of the free-module
    collaborator, the coefficient at [i], zero when the key is absent. *)
Definition coef (x : gmap key K) (i : key) : K := default rzero (x !! i).

(** Modelled from the spec: [for (i, c) in x], the nonzero entries of
    an element of the free-module collaborator. *)
Definition items (x : gmap key K) : list (key * K) := map_to_list x.

(** A coefficient to store: zero coefficients are dropped. *)
Definition nonzero (c : K) : option K :=
  if decide (c = rzero) then None else Some c.

(** Modelled from the spec: the element [c * monomial(i)] of the
    free-module collaborator, as its linear-combination builder makes
    it from the pair [(i, c)]. *)
Definition term (i : key) (c : K) : gmap key K :=
  match nonzero c with Some c' => {[ i := c' ]} | None => ∅ end.

(** Modelled from the spec: addition of elements of the free-module
    collaborator ([x + y]). *)
Definition add (x y : gmap key K) : gmap key K :=
  union_with (λ a b, nonzero (radd a b)) x y.

(** Modelled from the spec: scalar multiplication of the free-module
    collaborator ([c * x]). *)
Definition smul (c : K) (x : gmap key K) : gmap key K :=
  omap (λ a, nonzero (rmul c a)) x.

(** Modelled from the spec: [sum_of_terms] of the free-module
    collaborator, the linear-combination builder from an iterable of
    (key, coefficient) pairs. *)
Definition sum_of_terms (terms : list (key * K)) : gmap key K :=
  fold_left (λ acc t, add acc (term t.1 t.2)) terms zero.

(** Modelled from the spec: the linear combination of elements of the
    free-module collaborator, from (element, coefficient) pairs. *)
Definition linear_combination (l : list (gmap key K * K)) : gmap key K :=
  fold_left (λ acc t, add acc (smul t.2 t.1)) l zero.

(** An element in normal form stores no zero coefficient. *)
Definition normal (x : gmap key K) : Prop :=
  ∀ i c, x !! i = Some c → c ≠ rzero.

(** Modelled from the spec: a morphism of the free-module collaborator
    ([module_morphism(on_basis, codomain)]), given by a function from
    basis keys to elements of the codomain. *)
Record Morphism := {
  on_basis : key → result (gmap key K)
}.

(** Modelled from the spec: the application of a morphism of the
    free-module collaborator, the sum of [coefficient_k * f(k)] over the
    nonzero keys of the input element. *)
Definition apply_morphism (f : Morphism) (x : gmap key K)
  : result (gmap key K) :=
  let* images := mapM (λ t, let* v := on_basis f t.1 in Ok (v, t.2)) (items x) in
  Ok (linear_combination images).
End FreeModule.

Arguments Morphism K : clear implicits.

Global Instance normal_dec {K} `{BaseRing K} (x : gmap key K) :
  Decision (normal x).
Proof. unfold normal. apply (map_Forall_dec (λ _ c, c ≠ rzero)). Defined.

(** Closes a decidable goal by evaluation. *)
Ltac by_evaluation := apply (bool_decide_unpack _); vm_compute; exact I.

(** ** Root systems and Cartan types *)

(** The Cartan type: only an affine type has a special node. *)
Inductive CartanType := Affine (special : key) | NotAffine.

Definition is_affine (ct : CartanType) : bool :=
  match ct with Affine _ => true | NotAffine => false end.

Definition special_node (ct : CartanType) : result key :=
  match ct with Affine s => Ok s | NotAffine => Raise AttributeError end.

(** The realizations of a root system an element can live in. *)
Inductive Realization :=
  | RootLattice (dual : bool)
  | RootSpace (dual : bool)
  | WeightRealization (dual extended : bool)
  | ClassicalWeightRealization (dual : bool)
  | AmbientSpace.

Global Instance Realization_eq_dec : EqDecision Realization.
Proof. solve_decision. Defined.

(** What the class reads from its root system. *)
Record RootSystem {K : Type} := {
  index_set : list key;
  cartan_type : CartanType;
  dual_side : bool;
  (* dynkin_diagram().column(j): the entries of column j of the Cartan matrix *)
  dynkin_column : key → list (key * Z);
  (* cartan_type().root_system().ambient_space().fundamental_weights() *)
  ambient_fundamental_weights : gmap key (gmap key K)
}.
Arguments RootSystem K : clear implicits.

(** An element together with its parent.  Coefficients are taken in
    the base ring [K] of the weight space, the ring in which the
    products of [scalar] are formed. *)
Record Element {K : Type} := {
  parent : Realization;
  monomial_coefficients : gmap key K
}.
Arguments Element K : clear implicits.

(** ** The class [WeightSpace] *)

Section WeightSpace.
Context {K : Type} `{BaseRing K}.

Record WeightSpace := {
  root_system : RootSystem K;
  _extended : bool;
  basis_keys : list key
}.

(** A registered coercion. *)
Record Coercion := {
  co_domain : WeightSpace;
  co_codomain : WeightSpace;
  co_map : Morphism K
}.

Definition index_set_of (W : WeightSpace) : list key :=
  index_set (root_system W).

Definition cartan_type_of (W : WeightSpace) : CartanType :=
  cartan_type (root_system W).

Definition is_extended (W : WeightSpace) : bool := _extended W.

(** Lines 173-193 of [__init__]: validation and basis keys. *)
Definition init_module (rs : RootSystem K) (extended : bool)
  : result WeightSpace :=
  let basis_keys := index_set rs in
  let* basis_keys :=
    (if extended then
       if negb (is_affine (cartan_type rs))
       then Raise (ValueError extended_only_affine)
       else Ok (basis_keys ++ [delta])
     else Ok basis_keys) in
  Ok {| root_system := rs; _extended := extended; basis_keys := basis_keys |}.

Definition fundamental_weight (W : WeightSpace) (i : key)
  : result (gmap key K) :=
  if bool_decide (i = delta) then
    if negb (is_affine (cartan_type_of W))
    then Raise (ValueError delta_only_affine)
    else if is_extended W then Ok (monomial i) else Ok zero
  else
    if negb (bool_decide (i ∈ index_set_of W))
    then Raise (ValueError (not_in_index_set i))
    else Ok (monomial i).

(** [root_system.weight_space(base_ring, extended=True)]: the
    constructor with [extended=True], where the registration branch
    of [__init__] is not taken. *)
Definition weight_space_extended (rs : RootSystem K) : result WeightSpace :=
  init_module rs true.

(** [__init__]: the new space and the coercions it registers. *)
Definition WeightSpace_init (rs : RootSystem K) (extended : bool)
  : result (WeightSpace * list Coercion) :=
  let* self := init_module rs extended in
  if is_affine (cartan_type rs) && negb extended then
    let* domain := weight_space_extended rs in
    Ok (self, [ {| co_domain := domain; co_codomain := self;
                   co_map := {| on_basis := fundamental_weight self |} |} ])
  else Ok (self, []).

Definition basis_extension (W : WeightSpace) : list (key * gmap key K) :=
  if is_extended W then [ (delta, monomial delta) ] else [].

Definition simple_root (W : WeightSpace) (j : key) : result (gmap key K) :=
  if negb (bool_decide (j ∈ index_set_of W))
  then Raise (ValueError (not_in_index_set j))
  else
    let res :=
      sum_of_terms
        (map (λ t, (t.1, of_int t.2)) (dynkin_column (root_system W) j)) in
    let* special :=
      (if _extended W
       then let* s := special_node (cartan_type_of W) in Ok (bool_decide (j = s))
       else Ok false) in
    if special then Ok (add res (monomial delta)) else Ok res.

(** Modelled from the spec: [self.classical()], the classical space
    of the weight-lattice realization (not in [weight_space.py]); only
    an affine Cartan type has one. *)
Definition classical (W : WeightSpace) : result Realization :=
  match cartan_type_of W with
  | Affine _ => Ok (ClassicalWeightRealization (dual_side (root_system W)))
  | NotAffine => Raise AttributeError
  end.

Definition _to_classical_on_basis (W : WeightSpace) (i : key)
  : result (Element K) :=
  let* test :=
    (if bool_decide (i = delta) then Ok true
     else let* s := special_node (cartan_type_of W) in Ok (bool_decide (i = s))) in
  let* cl := classical W in
  if test
  then Ok {| parent := cl; monomial_coefficients := zero |}
  else Ok {| parent := cl; monomial_coefficients := monomial i |}.

(** [basis[i]] on the family of fundamental weights of the ambient
    space. *)
Definition basis_value (basis : gmap key (gmap key K)) (i : key)
  : result (gmap key K) :=
  match basis !! i with Some v => Ok v | None => Raise (KeyError i) end.

Definition to_ambient_space_morphism (W : WeightSpace)
  : result (Morphism K) :=
  if dual_side (root_system W)
  then Raise (TypeError no_map_from_coweight)
  else
    let basis := ambient_fundamental_weights (root_system W) in
    Ok {| on_basis := basis_value basis |}.

(** *** The element class [WeightSpaceElement] *)

(** Modelled from the spec: [self.parent().coroot_lattice()] and
    [self.parent().coroot_space()], the root lattice and the root space
    of the dual root system (not in [weight_space.py]). *)
Definition coroot_lattice (W : WeightSpace) : Realization :=
  RootLattice (negb (dual_side (root_system W))).

Definition coroot_space (W : WeightSpace) : Realization :=
  RootSpace (negb (dual_side (root_system W))).

(** Modelled from the spec: the membership test of the coroot
    collaborators ([x in P], not in [weight_space.py]): an element
    belongs to a space when that space is its parent. *)
Definition contains (P : Realization) (x : Element K) : bool :=
  bool_decide (parent x = P).

(** The two branches of [scalar]:
    [sum((lambdacheck[i]*c for (i,c) in self), zero)] and
    [sum((self[i]*c for (i,c) in lambdacheck), zero)]. *)
Definition scalar_over_self (self other : gmap key K) (zero : K) : K :=
  py_sum (map (λ t, rmul (coef other t.1) t.2) (items self)) zero.

Definition scalar_over_other (self other : gmap key K) (zero : K) : K :=
  py_sum (map (λ t, rmul (coef self t.1) t.2) (items other)) zero.

(** [self.scalar(lambdacheck)], for [self] an element of [W]. *)
Definition scalar (W : WeightSpace) (self : gmap key K)
    (lambdacheck : Element K) : result K :=
  if negb (contains (coroot_lattice W) lambdacheck)
     && negb (contains (coroot_space W) lambdacheck)
  then Raise (ValueError not_in_coroot_space)
  else
    let zero := rzero in
    let other := monomial_coefficients lambdacheck in
    if (size self <? size other)%nat
    then Ok (scalar_over_self self other zero)
    else Ok (scalar_over_other self other zero).

(** [self.coefficient(i)] *)
Definition coefficient (self : gmap key K) (i : key) : K := coef self i.

Definition is_dominant (W : WeightSpace) (self : gmap key K) : bool :=
  forallb (λ i, rgeb (coefficient self i) rzero) (index_set_of W).

Definition to_ambient (W : WeightSpace) (self : gmap key K)
  : result (gmap key K) :=
  let* f := to_ambient_space_morphism W in apply_morphism f self.

Definition to_weight_space (self : gmap key K) : gmap key K := self.

End WeightSpace.

Arguments WeightSpace K : clear implicits.
Arguments Coercion K : clear implicits.

(** ** The statements of the specification *)

Section Specification.
Context {K : Type} `{BaseRing K}.

(** The pairing in the words of the specification: the sum, over the
    basis keys the two operands share, of the product of their
    coefficients at the key, accumulated from the ring's zero. *)
Definition shared_keys (x y : gmap key K) : list key :=
  elements (dom x ∩ dom y).

Definition pairing_spec (x y : gmap key K) : K :=
  py_sum (map (λ k, rmul (coef x k) (coef y k)) (shared_keys x y)) rzero.

(** [j] equals the special node of the Cartan type. *)
Definition is_special_node (ct : CartanType) (j : key) : bool :=
  match ct with Affine s => bool_decide (j = s) | NotAffine => false end.

End Specification.

(** ** Sample root systems *)

Module Samples.
Definition node (n : Z) : key := KInt n.

(** Column [j] of the Cartan matrix of a simply laced diagram:
    [(j, 2)] followed by [(i, -1)] for the neighbours [i] of [j]. *)
Definition column_of (neighbours : Z → list Z) (j : key) : list (key * Z) :=
  match j with
  | KInt n => (node n, 2) :: map (λ i, (node i, -1)) (neighbours n)
  | KStr _ => []
  end.

Definition path3 (n : Z) : list Z :=
  if n =? 1 then [2] else if n =? 2 then [1; 3] else if n =? 3 then [2] else [].

Definition cycle3 (n : Z) : list Z :=
  if n =? 0 then [1; 2] else if n =? 1 then [0; 2]
  else if n =? 2 then [0; 1] else [].

Definition cycle4 (n : Z) : list Z :=
  if n =? 0 then [1; 3] else if n =? 1 then [0; 2]
  else if n =? 2 then [1; 3] else if n =? 3 then [0; 2] else [].

Definition vec (l : list (Z * Z)) : gmap key Z :=
  list_to_map (map (λ p, (node p.1, p.2)) l).

(** [RootSystem(['A',3])] *)
Definition A3 : RootSystem Z := {|
  index_set := [node 1; node 2; node 3];
  cartan_type := NotAffine;
  dual_side := false;
  dynkin_column := column_of path3;
  ambient_fundamental_weights :=
    {[ node 1 := vec [(0, 1)];
       node 2 := vec [(0, 1); (1, 1)];
       node 3 := vec [(0, 1); (1, 1); (2, 1)] ]}
|}.

(** The root system of the coroots of [A3]. *)
Definition A3_dual : RootSystem Z := {|
  index_set := [node 1; node 2; node 3];
  cartan_type := NotAffine;
  dual_side := true;
  dynkin_column := column_of path3;
  ambient_fundamental_weights := ∅
|}.

(** [RootSystem(['A',2,1])] *)
Definition A2_1 : RootSystem Z := {|
  index_set := [node 0; node 1; node 2];
  cartan_type := Affine (node 0);
  dual_side := false;
  dynkin_column := column_of cycle3;
  ambient_fundamental_weights := ∅
|}.

(** [RootSystem(['A',3,1])] *)
Definition A3_1 : RootSystem Z := {|
  index_set := [node 0; node 1; node 2; node 3];
  cartan_type := Affine (node 0);
  dual_side := false;
  dynkin_column := column_of cycle4;
  ambient_fundamental_weights := ∅
|}.

Definition space (rs : RootSystem Z) (extended : bool) : WeightSpace Z :=
  {| root_system := rs; _extended := extended;
     basis_keys := index_set rs ++ (if extended then [delta] else []) |}.
End Samples.

(** A relabelled affine type: [CartanType(['A',2,1]).relabel({0: 'delta',
    1: 1, 2: 2})], whose special node carries the label ["delta"]. *)
Module Relabelled.
Definition column (j : key) : list (key * Z) :=
  if bool_decide (j = delta) then [(delta, 2); (KInt 1, -1); (KInt 2, -1)]
  else if bool_decide (j = KInt 1) then [(KInt 1, 2); (delta, -1); (KInt 2, -1)]
  else if bool_decide (j = KInt 2) then [(KInt 2, 2); (delta, -1); (KInt 1, -1)]
  else [].

Definition A2_1 : RootSystem Z := {|
  index_set := [delta; KInt 1; KInt 2];
  cartan_type := Affine delta;
  dual_side := false;
  dynkin_column := column;
  ambient_fundamental_weights := ∅
|}.

End Relabelled.

(** The examples of the docstrings. *)

Example A3_simple_root_2 :
  simple_root (Samples.space Samples.A3 false) (KInt 2)
  = Ok (Samples.vec [(1, -1); (2, 2); (3, -1)]).
Proof. vm_compute. reflexivity. Qed.

Example A3_1_extended_simple_root_0 :
  simple_root (Samples.space Samples.A3_1 true) (KInt 0)
  = Ok (<[delta := 1]> (Samples.vec [(0, 2); (1, -1); (3, -1)])).
Proof. vm_compute. reflexivity. Qed.

Example A3_extended_rejected :
  WeightSpace_init Samples.A3 true = Raise (ValueError extended_only_affine).
Proof. reflexivity. Qed.

(** ** Sums in the base ring *)

Section RingSums.
Context {K : Type} `{BaseRing K}.

Add Ring base_ring_ring : ring_laws.

Lemma py_sum_start (l : list K) (z a : K) :
  py_sum l (radd z a) = radd (py_sum l z) a.
Proof.
  revert z. induction l as [|b l IH]; intros z; [done|].
  cbn [py_sum fold_left] in *.
  replace (radd (radd z a) b) with (radd (radd z b) a) by ring.
  apply IH.
Qed.

Lemma py_sum_cons (a : K) (l : list K) (z : K) :
  py_sum (a :: l) z = radd (py_sum l z) a.
Proof. cbn [py_sum fold_left]. apply py_sum_start. Qed.

Lemma py_sum_perm (l l' : list K) (z : K) :
  l ≡ₚ l' → py_sum l z = py_sum l' z.
Proof.
  induction 1 as [|a l l' _ IH|a b l|l1 l2 l3 _ IH1 _ IH2].
  - done.
  - by rewrite !py_sum_cons, IH.
  - rewrite !py_sum_cons. ring.
  - by rewrite IH1.
Qed.

Lemma py_sum_map_ext {A} (f g : A → K) (l : list A) (z : K) :
  (∀ a, a ∈ l → f a = g a) → py_sum (map f l) z = py_sum (map g l) z.
Proof.
  intros Hfg. f_equal. apply map_ext_in. intros a Ha.
  apply Hfg. by apply list_elem_of_In.
Qed.

Lemma coef_empty (i : key) : coef (∅ : gmap key K) i = rzero.
Proof. unfold coef. by rewrite lookup_empty. Qed.

Lemma coef_insert (m : gmap key K) (i k : key) (c : K) :
  coef (<[i := c]> m) k = if decide (i = k) then c else coef m k.
Proof. unfold coef. rewrite lookup_insert. by case_decide. Qed.

Lemma coef_monomial (i k : key) :
  coef (monomial i) k = if decide (i = k) then rone else rzero.
Proof. unfold coef, monomial. rewrite lookup_singleton. by case_decide. Qed.

Lemma coef_absent (m : gmap key K) (i : key) :
  i ∉ dom m → coef m i = rzero.
Proof. intros Hi. unfold coef. by rewrite (not_elem_of_dom_1 m i Hi). Qed.

Lemma scalar_over_self_insert (m y : gmap key K) (i : key) (c : K) :
  m !! i = None →
  scalar_over_self (<[i := c]> m) y rzero
  = radd (scalar_over_self m y rzero) (rmul (coef y i) c).
Proof.
  intros Hi. unfold scalar_over_self, items.
  rewrite (py_sum_perm _ (map (λ t, rmul (coef y t.1) t.2)
                             ((i, c) :: map_to_list m))).
  - by rewrite map_cons, py_sum_cons.
  - apply Permutation_map. by apply map_to_list_insert.
Qed.

Lemma pairing_insert (m y : gmap key K) (i : key) (c : K) :
  m !! i = None →
  pairing_spec (<[i := c]> m) y = radd (pairing_spec m y) (rmul c (coef y i)).
Proof.
  intros Hi. unfold pairing_spec, shared_keys.
  assert (Hni : i ∉ dom m ∩ dom y).
  { rewrite elem_of_intersection, elem_of_dom, Hi. by intros [[? ?] _]. }
  assert (Hrest : ∀ k, k ∈ elements (dom m ∩ dom y) →
            rmul (coef (<[i := c]> m) k) (coef y k)
            = rmul (coef m k) (coef y k)).
  { intros k Hk. rewrite coef_insert. case_decide as Hik; [|done].
    subst k. by apply elem_of_elements in Hk. }
  destruct (decide (i ∈ dom y)) as [Hy|Hy].
  - assert (Hdom : dom (<[i := c]> m) ∩ dom y = {[i]} ∪ (dom m ∩ dom y)).
    { rewrite dom_insert_L. set_solver. }
    rewrite Hdom.
    rewrite (py_sum_perm _ (map (λ k, rmul (coef (<[i := c]> m) k) (coef y k))
                               (i :: elements (dom m ∩ dom y)))).
    + rewrite map_cons, py_sum_cons, coef_insert.
      rewrite decide_True by done.
      by rewrite (py_sum_map_ext _ _ _ _ Hrest).
    + apply Permutation_map. by apply elements_union_singleton.
  - assert (Hdom : dom (<[i := c]> m) ∩ dom y = dom m ∩ dom y).
    { rewrite dom_insert_L. set_solver. }
    rewrite Hdom, (py_sum_map_ext _ _ _ _ Hrest), (coef_absent y i Hy).
    ring.
Qed.

Lemma scalar_over_self_pairing (x y : gmap key K) :
  scalar_over_self x y rzero = pairing_spec x y.
Proof.
  induction x as [|i c m Hi IH] using map_ind.
  - unfold scalar_over_self, pairing_spec, shared_keys, items.
    rewrite map_to_list_empty, dom_empty_L.
    by replace (∅ ∩ dom y) with (∅ : gset key) by set_solver.
  - rewrite scalar_over_self_insert, pairing_insert, IH by done. ring.
Qed.

Lemma pairing_comm (x y : gmap key K) : pairing_spec x y = pairing_spec y x.
Proof.
  unfold pairing_spec, shared_keys.
  replace (dom y ∩ dom x) with (dom x ∩ dom y) by set_solver.
  apply py_sum_map_ext. intros k _. ring.
Qed.

Lemma scalar_over_other_pairing (x y : gmap key K) :
  scalar_over_other x y rzero = pairing_spec x y.
Proof.
  rewrite pairing_comm, <- scalar_over_self_pairing. done.
Qed.
End RingSums.

(** ** The scalar product *)

Section Scalar.
Context {K : Type} `{BaseRing K}.

Add Ring scalar_ring : ring_laws.

Lemma scalar_unfold (W : WeightSpace K) (x : gmap key K) (y : Element K) :
  scalar W x y =
    if contains (coroot_lattice W) y || contains (coroot_space W) y
    then Ok (pairing_spec x (monomial_coefficients y))
    else Raise (ValueError not_in_coroot_space).
Proof.
  unfold scalar.
  destruct (contains (coroot_lattice W) y), (contains (coroot_space W) y);
    cbn [negb andb orb]; try done;
    destruct (size x <? size (monomial_coefficients y))%nat;
    by rewrite ?scalar_over_self_pairing, ?scalar_over_other_pairing.
Qed.

(** C10.  For [x] in the weight space and [y] in the coroot lattice
    or the coroot space, the two branches of the sparse inner product
    in [scalar], the one that iterates over the entries of [x] and
    looks the coefficients up in [y], and the one that iterates over
    the entries of [y] and looks them up in [x], compute equal
    results, and [x.scalar(y)] returns that value: it does not depend
    on which operand has fewer entries. *)
Theorem scalar_branches_agree
    (W : WeightSpace K) (x : gmap key K) (y : Element K) :
  contains (coroot_lattice W) y || contains (coroot_space W) y = true →
  let other := monomial_coefficients y in
  scalar_over_self x other rzero = scalar_over_other x other rzero
  ∧ scalar W x y = Ok (scalar_over_self x other rzero)
  ∧ scalar W x y = Ok (scalar_over_other x other rzero).
Proof.
  intros Hy other. rewrite scalar_unfold, Hy. subst other.
  by rewrite scalar_over_self_pairing, scalar_over_other_pairing.
Qed.

(** C3.  [x.scalar(y)] raises [ValueError] ("not in the coroot
    space") when [y] belongs neither to the coroot lattice nor to the
    coroot space of the parent of [x]; when it belongs to one of them
    the result is the sum, over the basis keys that [x] and [y] share,
    of the products of their coefficients, accumulated from the zero of
    the base ring. *)
Theorem scalar_spec (W : WeightSpace K) (x : gmap key K) (y : Element K) :
  scalar W x y =
    if contains (coroot_lattice W) y || contains (coroot_space W) y
    then Ok (pairing_spec x (monomial_coefficients y))
    else Raise InvalidArgument.
Proof. apply scalar_unfold. Qed.

End Scalar.

Lemma scalar_branches_agree_witness :
  let W := Samples.space Samples.A3_1 false in
  let x := Samples.vec [(0, 2); (1, -1); (3, -1)] in
  let y := {| parent := RootLattice true;
              monomial_coefficients := Samples.vec [(1, 1); (2, 5)] |} in
  contains (coroot_lattice W) y || contains (coroot_space W) y = true
  ∧ scalar_over_self x (monomial_coefficients y) 0
    = scalar_over_other x (monomial_coefficients y) 0
  ∧ scalar W x y = Ok (-1).
Proof.
  intros W x y.
  destruct (scalar_branches_agree W x y eq_refl) as (Heq & Hself & _).
  split; [reflexivity|]. split; [exact Heq|]. rewrite Hself. reflexivity.
Defined.


(** The docstring of [scalar]: an element of the coweight space is
    rejected. *)
Example scalar_rejects_coweight :
  scalar (Samples.space Samples.A3 false)
         (Samples.vec [(1, 2); (2, -1)])
         {| parent := WeightRealization true false;
            monomial_coefficients := Samples.vec [(1, 2); (2, -1)] |}
  = Raise (ValueError not_in_coroot_space).
Proof. reflexivity. Qed.

(** ** Facts about the free module *)

Section FreeModuleFacts.
Context {K : Type} `{BaseRing K}.

Add Ring free_module_ring : ring_laws.

Lemma coef_nonzero (c : K) : default rzero (nonzero c) = c.
Proof. unfold nonzero. by case_decide. Qed.

Lemma nonzero_Some (c c' : K) : nonzero c = Some c' → c' = c ∧ c ≠ rzero.
Proof. unfold nonzero. case_decide; naive_solver. Qed.

Lemma coef_add (x y : gmap key K) (k : key) :
  coef (add x y) k = radd (coef x k) (coef y k).
Proof.
  unfold coef, add. rewrite lookup_union_with.
  destruct (x !! k) as [a|], (y !! k) as [b|]; cbn.
  - apply coef_nonzero.
  - ring.
  - ring.
  - ring.
Qed.

Lemma coef_smul (c : K) (x : gmap key K) (k : key) :
  coef (smul c x) k = rmul c (coef x k).
Proof.
  unfold coef, smul. rewrite lookup_omap.
  destruct (x !! k) as [a|]; cbn.
  - apply coef_nonzero.
  - ring.
Qed.

Lemma coef_term (i k : key) (c : K) :
  coef (term i c) k = if decide (i = k) then c else rzero.
Proof.
  unfold term, nonzero. case_decide as Hc.
  - rewrite coef_empty. by case_decide.
  - unfold coef. rewrite lookup_singleton. by case_decide.
Qed.

Lemma normal_zero : normal (zero : gmap key K).
Proof. intros i c. unfold zero. by rewrite lookup_empty. Qed.

Lemma normal_monomial (i : key) : normal (monomial i).
Proof.
  intros k c. unfold monomial. rewrite lookup_singleton.
  case_decide; [|done]. intros [= <-]. apply ring_nontrivial.
Qed.

Lemma normal_add (x y : gmap key K) :
  normal x → normal y → normal (add x y).
Proof.
  intros Hx Hy i c. unfold add. rewrite lookup_union_with.
  destruct (x !! i) as [a|] eqn:Ha, (y !! i) as [b|] eqn:Hb; cbn.
  - intros Hc. by apply nonzero_Some in Hc as [-> ?].
  - intros [= <-]. by eapply Hx.
  - intros [= <-]. by eapply Hy.
  - done.
Qed.

Lemma normal_smul (c : K) (x : gmap key K) : normal (smul c x).
Proof.
  intros i a. unfold smul. rewrite lookup_omap.
  destruct (x !! i) as [b|]; cbn; [|done].
  intros Ha. by apply nonzero_Some in Ha as [-> ?].
Qed.

Lemma normal_term (i : key) (c : K) : normal (term i c).
Proof.
  intros k a. unfold term, nonzero. case_decide.
  - by rewrite lookup_empty.
  - rewrite lookup_singleton. case_decide; [|done]. by intros [= <-].
Qed.

Lemma normal_delete (i : key) (x : gmap key K) :
  normal x → normal (delete i x).
Proof.
  intros Hx k c Hk. apply lookup_delete_Some in Hk as [_ Hk]. by eapply Hx.
Qed.

(** Elements in normal form with the same coefficients are equal. *)
Lemma element_ext (x y : gmap key K) :
  normal x → normal y → (∀ k, coef x k = coef y k) → x = y.
Proof.
  intros Hx Hy Hxy. apply map_eq. intros k.
  specialize (Hxy k). unfold coef in Hxy.
  destruct (x !! k) as [a|] eqn:Ha, (y !! k) as [b|] eqn:Hb; cbn in Hxy.
  - by subst.
  - subst a. by destruct (Hx k rzero Ha).
  - subst b. by destruct (Hy k rzero Hb).
  - done.
Qed.

Lemma add_zero_l (x : gmap key K) : add zero x = x.
Proof. unfold add, zero. apply (left_id _ _). Qed.

Lemma smul_one (x : gmap key K) : normal x → smul rone x = x.
Proof.
  intros Hx. apply element_ext; [apply normal_smul|done|].
  intros k. rewrite coef_smul. ring.
Qed.

Lemma smul_monomial (c : K) (i : key) : smul c (monomial i) = term i c.
Proof.
  unfold smul, monomial, term. rewrite omap_singleton.
  by replace (rmul c rone) with c by ring.
Qed.

Lemma smul_zero_r (c : K) : smul c zero = (zero : gmap key K).
Proof. unfold smul, zero. apply omap_empty. Qed.

Lemma linear_combination_from (l : list (gmap key K * K)) (acc : gmap key K) (k : key) :
  coef (fold_left (λ acc t, add acc (smul t.2 t.1)) l acc) k
  = py_sum (map (λ t, rmul t.2 (coef t.1 k)) l) (coef acc k).
Proof.
  revert acc. induction l as [|t l IH]; intros acc; [done|].
  cbn [fold_left map py_sum]. rewrite IH, coef_add, coef_smul. done.
Qed.

Lemma coef_linear_combination (l : list (gmap key K * K)) (k : key) :
  coef (linear_combination l) k
  = py_sum (map (λ t, rmul t.2 (coef t.1 k)) l) rzero.
Proof.
  unfold linear_combination. rewrite linear_combination_from.
  unfold zero. by rewrite coef_empty.
Qed.

Lemma normal_linear_combination (l : list (gmap key K * K)) :
  normal (linear_combination l).
Proof.
  unfold linear_combination. generalize normal_zero.
  generalize (zero : gmap key K) as acc.
  induction l as [|t l IH]; intros acc Hacc; [done|].
  cbn [fold_left]. apply IH, normal_add; [done|apply normal_smul].
Qed.

Lemma py_sum_zero {A} (f : A → K) (l : list A) :
  (∀ a, a ∈ l → f a = rzero) → py_sum (map f l) rzero = rzero.
Proof.
  induction l as [|a l IH]; intros Hf; [done|].
  rewrite map_cons, py_sum_cons, IH, (Hf a).
  - ring.
  - by left.
  - intros b Hb. apply Hf. by right.
Qed.

(** The sum over the entries of [x] that picks the entry at [k]. *)
Lemma py_sum_items_at (x : gmap key K) (k : key) :
  py_sum (map (λ t, rmul t.2 (if decide (t.1 = k) then rone else rzero))
              (items x)) rzero
  = coef x k.
Proof.
  induction x as [|i c m Hi IH] using map_ind.
  - unfold items. by rewrite map_to_list_empty, coef_empty.
  - unfold items in *.
    rewrite (py_sum_perm _ (map (λ t, rmul t.2
                                 (if decide (t.1 = k) then rone else rzero))
                               ((i, c) :: map_to_list m)))
      by (apply Permutation_map; by apply map_to_list_insert).
    rewrite map_cons, py_sum_cons, IH, coef_insert. cbn [fst snd].
    case_decide as Hik.
    + subst k. unfold coef. rewrite Hi. cbn. ring.
    + ring.
Qed.

Lemma mapM_Ok {A B} (f : A → result B) (g : A → B) (l : list A) :
  (∀ a, a ∈ l → f a = Ok (g a)) → mapM f l = Ok (map g l).
Proof.
  induction l as [|a l IH]; intros Hf; [done|].
  cbn [mapM map]. rewrite (Hf a) by (by left). cbn [bind].
  rewrite IH; [done|]. intros b Hb. apply Hf. by right.
Qed.

Lemma linear_combination_monomials (col : list (key * K)) :
  linear_combination (map (λ t, (monomial t.1, t.2)) col) = sum_of_terms col.
Proof.
  unfold linear_combination, sum_of_terms.
  generalize (zero : gmap key K) as acc.
  induction col as [|t col IH]; intros acc; [done|].
  cbn [map fold_left fst snd]. by rewrite smul_monomial, IH.
Qed.

Lemma apply_morphism_monomial (f : Morphism K) (i : key) (v : gmap key K) :
  on_basis f i = Ok v → normal v → apply_morphism f (monomial i) = Ok v.
Proof.
  intros Hv Hn. unfold apply_morphism, items, monomial.
  rewrite map_to_list_singleton. cbn [mapM fst snd]. rewrite Hv. cbn [bind].
  unfold linear_combination. cbn [fold_left fst snd].
  by rewrite add_zero_l, smul_one.
Qed.
End FreeModuleFacts.

(** ** Construction, fundamental weights and simple roots *)

Section Construction.
Context {K : Type} `{BaseRing K}.

Lemma init_module_Ok (rs : RootSystem K) (extended : bool) (W : WeightSpace K) :
  init_module rs extended = Ok W →
  root_system W = rs ∧ _extended W = extended
  ∧ basis_keys W = (if extended then index_set rs ++ [delta] else index_set rs)
  ∧ (extended = true → is_affine (cartan_type rs) = true).
Proof.
  unfold init_module. destruct extended.
  - destruct (is_affine (cartan_type rs)); cbn; [|done]. by intros [= <-].
  - cbn. by intros [= <-].
Qed.

Lemma WeightSpace_init_Ok (rs : RootSystem K) (extended : bool)
    (W : WeightSpace K) (regs : list (Coercion K)) :
  WeightSpace_init rs extended = Ok (W, regs) →
  init_module rs extended = Ok W.
Proof.
  unfold WeightSpace_init.
  destruct (init_module rs extended) as [W'|e]; cbn [bind]; [|done].
  destruct (is_affine (cartan_type rs) && negb extended).
  - destruct (weight_space_extended rs); cbn [bind]; [|done]. by intros [= <- _].
  - by intros [= <- _].
Qed.

(** C6.  Constructing a [WeightSpace] with [extended=True] raises
    [ValueError] ("extended weight lattices are only implemented for
    affine root systems") when the Cartan type of the root system is
    not affine; otherwise the construction succeeds and the basis keys
    are the index set, with the key ["delta"] appended exactly when
    [extended] is true. *)
Theorem WeightSpace_init_spec (rs : RootSystem K) (extended : bool) :
  if extended && negb (is_affine (cartan_type rs))
  then WeightSpace_init rs extended = Raise InvalidConfiguration
  else ∃ W regs,
    WeightSpace_init rs extended = Ok (W, regs)
    ∧ root_system W = rs
    ∧ is_extended W = extended
    ∧ basis_keys W
      = if extended then index_set rs ++ [delta] else index_set rs.
Proof.
  unfold WeightSpace_init, weight_space_extended, init_module.
  destruct extended, (is_affine (cartan_type rs)); cbn; eauto 10.
Qed.

Lemma fundamental_weight_unfold (W : WeightSpace K) (i : key) :
  fundamental_weight W i =
    if bool_decide (i = delta) then
      if is_affine (cartan_type_of W) then
        if is_extended W then Ok (monomial delta) else Ok zero
      else Raise (ValueError delta_only_affine)
    else
      if bool_decide (i ∈ index_set_of W) then Ok (monomial i)
      else Raise (ValueError (not_in_index_set i)).
Proof.
  unfold fundamental_weight. case_bool_decide as Hi.
  - subst i. by destruct (is_affine (cartan_type_of W)).
  - by case_bool_decide.
Qed.

(** C2.  [fundamental_weight(i)]: for [i == "delta"] it raises
    [ValueError] ("delta is only defined for affine weight spaces")
    unless the Cartan type is affine, returns the basis monomial for
    ["delta"] when the type is affine and the space extended, and the
    zero element when the type is affine and the space not extended;
    for any other [i] it raises [ValueError] ("not in the index set")
    when [i] is not in the index set and returns the basis monomial for
    [i] otherwise. *)
Theorem fundamental_weight_spec (W : WeightSpace K) (i : key) :
  fundamental_weight W i =
    if bool_decide (i = delta) then
      if is_affine (cartan_type_of W) then
        if is_extended W then Ok (monomial delta) else Ok zero
      else Raise UnsupportedOperation_delta
    else
      if bool_decide (i ∈ index_set_of W) then Ok (monomial i)
      else Raise (InvalidKey i).
Proof. apply fundamental_weight_unfold. Qed.


End Construction.


(** ** The quotient from the extended space *)

Section Quotient.
Context {K : Type} `{BaseRing K}.

Add Ring quotient_ring : ring_laws.

(** The image of a basis key under [fundamental_weight] of a
    non-extended space of affine type. *)
Lemma fundamental_weight_quotient (W : WeightSpace K) (i : key) :
  is_affine (cartan_type_of W) = true →
  is_extended W = false →
  i ∈ index_set_of W ++ [delta] →
  fundamental_weight W i = Ok (if decide (i = delta) then zero else monomial i).
Proof.
  intros Haff Hext Hi. rewrite fundamental_weight_unfold, Haff, Hext.
  case_bool_decide as Hd.
  - by rewrite decide_True.
  - rewrite decide_False by done. rewrite bool_decide_eq_true_2; [done|].
    apply elem_of_app in Hi as [Hi|Hi]; [done|].
    by apply list_elem_of_singleton in Hi.
Qed.

(** The linear extension of [fundamental_weight] drops the coordinate
    at ["delta"]. *)
Lemma quotient_closed_form (W : WeightSpace K) (x : gmap key K) :
  is_affine (cartan_type_of W) = true →
  is_extended W = false →
  normal x →
  (∀ k, k ∈ dom x → k ∈ index_set_of W ++ [delta]) →
  apply_morphism {| on_basis := fundamental_weight W |} x
  = Ok (delete delta x).
Proof.
  intros Haff Hext Hx Hdom. unfold apply_morphism. cbn [on_basis].
  rewrite (mapM_Ok _ (λ t, (if decide (t.1 = delta) then zero
                            else monomial t.1, t.2))).
  - cbn [bind]. f_equal.
    apply element_ext;
      [apply normal_linear_combination|by apply normal_delete|].
    intros k. rewrite coef_linear_combination, map_map. cbn [fst snd].
    destruct (decide (k = delta)) as [->|Hk].
    + unfold coef at 2. rewrite lookup_delete_eq. cbn.
      apply py_sum_zero. intros t _. case_decide.
      * unfold zero. rewrite coef_empty. ring.
      * rewrite coef_monomial, decide_False by done. ring.
    + unfold coef at 2. rewrite lookup_delete_ne by done.
      fold (coef x k). rewrite <- py_sum_items_at.
      apply py_sum_map_ext. intros t _. case_decide as Ht.
      * rewrite decide_False by congruence.
        unfold zero. rewrite coef_empty. ring.
      * by rewrite coef_monomial.
  - intros [k c] Ht. cbn [fst snd].
    rewrite fundamental_weight_quotient; [done..|].
    apply Hdom, elem_of_dom. exists c. by apply elem_of_map_to_list.
Qed.

Lemma delete_add (i : key) (x y : gmap key K) :
  delete i (add x y) = add (delete i x) (delete i y).
Proof. unfold add. apply delete_union_with. Qed.

Lemma delete_smul (i : key) (c : K) (x : gmap key K) :
  delete i (smul c x) = smul c (delete i x).
Proof. unfold smul. symmetry. apply omap_delete. Qed.

Lemma dom_add (x y : gmap key K) (k : key) :
  k ∈ dom (add x y) → k ∈ dom x ∨ k ∈ dom y.
Proof.
  rewrite !elem_of_dom. unfold add. rewrite lookup_union_with.
  destruct (x !! k), (y !! k); cbn; eauto.
Qed.

Lemma dom_smul (c : K) (x : gmap key K) (k : key) :
  k ∈ dom (smul c x) → k ∈ dom x.
Proof.
  rewrite !elem_of_dom. unfold smul. rewrite lookup_omap.
  destruct (x !! k); cbn; [eauto|]. by intros [? ?].
Qed.

(** C5.  The constructor registers a coercion exactly when
    [extended=False] and the Cartan type is affine.  Its domain is the
    extended space and its codomain the new space; it is the linear
    extension of [fundamental_weight] of the new space: it sends each
    fundamental weight of the extended space to the fundamental weight
    of the same index, the monomial for ["delta"] to zero, and, dropping
    the coordinate at ["delta"], respects sums and scalar multiples. *)
Theorem quotient_coercion_spec (rs : RootSystem K) (extended : bool)
    (W : WeightSpace K) (regs : list (Coercion K)) :
  WeightSpace_init rs extended = Ok (W, regs) →
  if is_affine (cartan_type rs) && negb extended
  then
    ∃ D q,
      regs = [ {| co_domain := D; co_codomain := W; co_map := q |} ]
      ∧ WeightSpace_init rs true = Ok (D, [])
      ∧ q = {| on_basis := fundamental_weight W |}
      ∧ (∀ i, i ∈ basis_keys D →
           fundamental_weight D i = Ok (monomial i)
           ∧ ∃ w, fundamental_weight W i = Ok w
                  ∧ apply_morphism q (monomial i) = Ok w)
      ∧ apply_morphism q (monomial delta) = Ok zero
      ∧ (∀ x, normal x → (∀ k, k ∈ dom x → k ∈ basis_keys D) →
           apply_morphism q x = Ok (delete delta x))
      ∧ (∀ x y, normal x → normal y →
           (∀ k, k ∈ dom x → k ∈ basis_keys D) →
           (∀ k, k ∈ dom y → k ∈ basis_keys D) →
           apply_morphism q (add x y)
           = Ok (add (delete delta x) (delete delta y)))
      ∧ (∀ c x, normal x → (∀ k, k ∈ dom x → k ∈ basis_keys D) →
           apply_morphism q (smul c x) = Ok (smul c (delete delta x)))
  else regs = [].
Proof.
  intros HW. pose proof (WeightSpace_init_Ok _ _ _ _ HW) as HW'.
  apply init_module_Ok in HW' as (Hrs & Hext & Hkeys & _).
  unfold WeightSpace_init in HW.
  destruct (init_module rs extended) as [W'|] eqn:HW'; cbn [bind] in HW;
    [|done].
  destruct (is_affine (cartan_type rs)) eqn:Haff, extended;
    cbn [andb negb] in *; try by injection HW as _ <-.
  unfold weight_space_extended, init_module in HW.
  rewrite Haff in HW. cbn in HW. injection HW as -> <-.
  assert (HaffW : is_affine (cartan_type_of W) = true).
  { unfold cartan_type_of. by rewrite Hrs. }
  assert (Hidx : index_set_of W = index_set rs).
  { unfold index_set_of. by rewrite Hrs. }
  assert (Hq : ∀ x, normal x →
             (∀ k, k ∈ dom x → k ∈ index_set rs ++ [delta]) →
             apply_morphism {| on_basis := fundamental_weight W |} x
             = Ok (delete delta x)).
  { intros x Hx Hdom. apply quotient_closed_form; try done.
    by rewrite Hidx. }
  eexists _, _. split; [done|]. split.
  { unfold WeightSpace_init, init_module. by rewrite Haff. }
  split; [done|]. cbn [basis_keys].
  split; [|split; [|split; [|split]]].
  - intros i Hi. split.
    + rewrite fundamental_weight_unfold.
      unfold cartan_type_of, index_set_of, is_extended.
      cbn [root_system _extended]. rewrite Haff.
      case_bool_decide as Hd; [by subst|].
      rewrite bool_decide_eq_true_2; [done|].
      apply elem_of_app in Hi as [?|Hi]; [done|].
      by apply list_elem_of_singleton in Hi.
    + eexists. split.
      * apply fundamental_weight_quotient; try done. by rewrite Hidx.
      * apply apply_morphism_monomial; cbn [on_basis].
        -- apply fundamental_weight_quotient; try done. by rewrite Hidx.
        -- case_decide; [apply normal_zero|apply normal_monomial].
  - apply apply_morphism_monomial; cbn [on_basis]; [|apply normal_zero].
    rewrite fundamental_weight_unfold, HaffW.
    unfold is_extended. by rewrite Hext.
  - done.
  - intros x y Hx Hy Hdx Hdy. rewrite Hq.
    + by rewrite delete_add.
    + by apply normal_add.
    + intros k Hk. apply dom_add in Hk as [?|?]; auto.
  - intros c x Hx Hdx. rewrite Hq.
    + by rewrite delete_smul.
    + apply normal_smul.
    + intros k Hk. apply dom_smul in Hk. auto.
Qed.
End Quotient.

Lemma quotient_coercion_spec_witness :
  let W := Samples.space Samples.A2_1 false in
  let q := {| on_basis := fundamental_weight W |} in
  WeightSpace_init Samples.A2_1 false
  = Ok (W, [ {| co_domain := Samples.space Samples.A2_1 true;
                co_codomain := W; co_map := q |} ])
  ∧ apply_morphism q (monomial delta) = Ok zero
  ∧ apply_morphism q (monomial (KInt 1)) = Ok (monomial (KInt 1))
  ∧ apply_morphism q (<[delta := 3]> (Samples.vec [(0, 2); (1, -1)]))
    = Ok (Samples.vec [(0, 2); (1, -1)]).
Proof.
  intros W q.
  destruct (quotient_coercion_spec Samples.A2_1 false W _ eq_refl)
    as (D & q' & _ & HD & Hq & Hbasis & Hdelta & Hclosed & _).
  injection HD as <-. subst q'.
  split; [reflexivity|]. split; [exact Hdelta|]. split.
  - destruct (Hbasis (KInt 1) ltac:(by_evaluation)) as (_ & w & Hw & Happ).
    transitivity (Ok w); [exact Happ|]. rewrite <- Hw. reflexivity.
  - transitivity
      (Ok (delete delta (<[delta := 3]> (Samples.vec [(0, 2); (1, -1)])))).
    + apply Hclosed.
      * change (map_Forall (λ _ c, c ≠ 0)
                  (<[delta := 3]> (Samples.vec [(0, 2); (1, -1)]))).
        by_evaluation.
      * change (set_Forall
                  (λ k, k ∈ basis_keys (Samples.space Samples.A2_1 true))
                  (dom (<[delta := 3]> (Samples.vec [(0, 2); (1, -1)])))).
        by_evaluation.
    + vm_compute. reflexivity.
Defined.

(** ** Dominance, the classical projection and the ambient space *)

Section Maps.
Context {K : Type} `{BaseRing K}.

Lemma is_dominant_unfold (W : WeightSpace K) (x : gmap key K) :
  is_dominant W x = true
  ↔ ∀ i, i ∈ index_set_of W → rgeb (coef x i) rzero = true.
Proof.
  unfold is_dominant, coefficient. rewrite forallb_forall.
  split; intros Hx i Hi; apply Hx; by apply list_elem_of_In.
Qed.

Lemma is_dominant_ext (W : WeightSpace K) (x y : gmap key K) :
  (∀ i, i ∈ index_set_of W → coef x i = coef y i) →
  is_dominant W x = is_dominant W y.
Proof.
  unfold is_dominant, coefficient. generalize (index_set_of W) as l.
  induction l as [|i l IH]; intros Hxy; [done|].
  cbn [forallb]. rewrite (Hxy i) by (by left).
  rewrite IH; [done|]. intros k Hk. apply Hxy. by right.
Qed.

(** C7.  [x.is_dominant()] is true if and only if the coefficient of
    [x] at every key of the index set is greater than or equal to zero
    in the ordering of the base ring; the key ["delta"] is not part of
    the check: whatever the coefficient at it, the answer is the
    same. *)
Theorem is_dominant_spec (W : WeightSpace K) (x : gmap key K) :
  (is_dominant W x = true
   ↔ ∀ i, i ∈ index_set_of W → rgeb (coef x i) rzero = true)
  ∧ (delta ∉ index_set_of W →
     (∀ c, is_dominant W (<[delta := c]> x) = is_dominant W x)
     ∧ is_dominant W (delete delta x) = is_dominant W x).
Proof.
  split; [apply is_dominant_unfold|].
  intros Hdelta. split; [intros c|]; apply is_dominant_ext; intros i Hi;
    assert (delta ≠ i) by (by intros <-); unfold coef.
  - by rewrite lookup_insert_ne.
  - by rewrite lookup_delete_ne.
Qed.

(** C8.  For an affine type with special node [s],
    [_to_classical_on_basis(i)] is the zero element of the classical
    space when [i] is ["delta"] or [i] is [s], and the basis monomial
    for [i] of the classical space otherwise. *)
Theorem to_classical_on_basis_spec (W : WeightSpace K) (s i : key) :
  cartan_type_of W = Affine s →
  _to_classical_on_basis W i
  = Ok {| parent := ClassicalWeightRealization (dual_side (root_system W));
          monomial_coefficients :=
            if bool_decide (i = delta) || bool_decide (i = s)
            then zero else monomial i |}.
Proof.
  intros Hct. unfold _to_classical_on_basis, classical. rewrite Hct.
  case_bool_decide; cbn; [done|]. by case_bool_decide.
Qed.

(** C9.  [to_ambient_space_morphism()] raises [TypeError] ("No
    implemented map from the coweight space to the ambient space") on
    the dual side; on the direct side it returns the linear extension
    of the map sending the basis key [i] to the [i]-th fundamental
    weight of the ambient space, so that the monomial for [i] is sent
    to that fundamental weight. *)
Theorem to_ambient_space_morphism_spec (W : WeightSpace K) :
  if dual_side (root_system W)
  then to_ambient_space_morphism W = Raise UnsupportedOperation_ambient
  else ∃ f,
    to_ambient_space_morphism W = Ok f
    ∧ ∀ i Lambda_i,
        ambient_fundamental_weights (root_system W) !! i = Some Lambda_i →
        normal Lambda_i →
        on_basis f i = Ok Lambda_i
        ∧ apply_morphism f (monomial i) = Ok Lambda_i.
Proof.
  unfold to_ambient_space_morphism.
  destruct (dual_side (root_system W)); [done|].
  eexists. split; [done|]. intros i v Hi Hv.
  assert (basis_value (ambient_fundamental_weights (root_system W)) i = Ok v)
    as Hb by (unfold basis_value; by rewrite Hi).
  split; [done|]. by apply apply_morphism_monomial.
Qed.
End Maps.

(** The docstring of [is_dominant]: in the extended weight lattice of
    type [A2^(1)], [Lambda[1] - delta] is dominant. *)
Lemma is_dominant_spec_witness :
  let W := Samples.space Samples.A2_1 true in
  let w := Samples.vec [(1, 1)] in
  is_dominant W w = true
  ∧ is_dominant W (<[delta := -1]> w) = true.
Proof.
  intros W w.
  destruct (is_dominant_spec W w) as [Hiff Hdelta].
  destruct (Hdelta ltac:(by_evaluation)) as [Hins _].
  assert (is_dominant W w = true) as Hw.
  { apply Hiff. intros i Hi.
    revert i Hi. apply Forall_forall. by_evaluation. }
  split; [exact Hw|]. rewrite Hins. exact Hw.
Defined.

(** The docstring of [_to_classical_on_basis], for type [A2^(1)]. *)
Lemma to_classical_on_basis_spec_witness :
  let W := Samples.space Samples.A2_1 false in
  let classical_element x :=
    Ok {| parent := ClassicalWeightRealization false;
          monomial_coefficients := x |} in
  _to_classical_on_basis W delta = classical_element zero
  ∧ _to_classical_on_basis W (KInt 0) = classical_element zero
  ∧ _to_classical_on_basis W (KInt 1) = classical_element (monomial (KInt 1))
  ∧ _to_classical_on_basis W (KInt 2) = classical_element (monomial (KInt 2)).
Proof.
  intros W classical_element.
  split; [|split; [|split]].
  - exact (to_classical_on_basis_spec W (KInt 0) delta eq_refl).
  - exact (to_classical_on_basis_spec W (KInt 0) (KInt 0) eq_refl).
  - exact (to_classical_on_basis_spec W (KInt 0) (KInt 1) eq_refl).
  - exact (to_classical_on_basis_spec W (KInt 0) (KInt 2) eq_refl).
Defined.

Lemma to_ambient_space_morphism_spec_witness :
  (∃ f, to_ambient_space_morphism (Samples.space Samples.A3 false) = Ok f
        ∧ apply_morphism f (monomial (KInt 2))
          = Ok (Samples.vec [(0, 1); (1, 1)]))
  ∧ to_ambient_space_morphism (Samples.space Samples.A3_dual false)
    = Raise (TypeError no_map_from_coweight).
Proof.
  split.
  - destruct (to_ambient_space_morphism_spec (Samples.space Samples.A3 false))
      as (f & Hf & Hbasis).
    exists f. split; [exact Hf|].
    apply (Hbasis (KInt 2) (Samples.vec [(0, 1); (1, 1)]));
      [reflexivity|by_evaluation].
  - exact (to_ambient_space_morphism_spec
             (Samples.space Samples.A3_dual false)).
Defined.

(** The docstring of [is_dominant], for type [A3]. *)
Example A3_dominant :
  is_dominant (Samples.space Samples.A3 false) (Samples.vec [(1, 1); (3, 1)])
  = true
  ∧ is_dominant (Samples.space Samples.A3 false)
                (Samples.vec [(1, 1); (2, -1)])
    = false.
Proof. split; reflexivity. Qed.

(** ** Elements of a weight space *)

Section Elements.
Context {K : Type} `{BaseRing K}.

Add Ring elements_ring : ring_laws.

Lemma coef_dom (x : gmap key K) (k : key) : coef x k ≠ rzero → k ∈ dom x.
Proof.
  unfold coef. intros Hk. apply elem_of_dom.
  destruct (x !! k); [eauto|]. by destruct Hk.
Qed.

Lemma normal_coef (x : gmap key K) (k : key) :
  normal x → k ∈ dom x → coef x k ≠ rzero.
Proof.
  intros Hx [c Hc]%elem_of_dom. unfold coef. rewrite Hc. cbn. by eapply Hx.
Qed.

Lemma sum_of_terms_monomials (col : list (key * K)) :
  sum_of_terms col = linear_combination (map (λ t, (monomial t.1, t.2)) col).
Proof. symmetry. apply linear_combination_monomials. Qed.

Lemma normal_sum_of_terms (col : list (key * K)) : normal (sum_of_terms col).
Proof. rewrite sum_of_terms_monomials. apply normal_linear_combination. Qed.

Lemma coef_sum_of_terms (col : list (key * K)) (k : key) :
  coef (sum_of_terms col) k
  = py_sum (map (λ t, if decide (t.1 = k) then t.2 else rzero) col) rzero.
Proof.
  rewrite sum_of_terms_monomials, coef_linear_combination, map_map.
  apply py_sum_map_ext. intros t _. cbn [fst snd].
  rewrite coef_monomial. case_decide; ring.
Qed.

Lemma dom_sum_of_terms (col : list (key * K)) (k : key) :
  k ∈ dom (sum_of_terms col) → k ∈ map fst col.
Proof.
  intros Hk. apply (normal_coef _ _ (normal_sum_of_terms col)) in Hk.
  rewrite coef_sum_of_terms in Hk.
  destruct (decide (k ∈ map fst col)) as [|Hn]; [done|].
  destruct Hk. apply py_sum_zero. intros t Ht.
  case_decide as Heq; [|done]. destruct Hn. subst k.
  by apply (list_elem_of_fmap_2 fst).
Qed.

Lemma dom_monomial (i k : key) : k ∈ dom (monomial i : gmap key K) → k = i.
Proof. unfold monomial. rewrite dom_singleton_L. set_solver. Qed.

Lemma simple_root_unfold (rs : RootSystem K) (extended : bool)
    (W : WeightSpace K) (regs : list (Coercion K)) (j : key) :
  WeightSpace_init rs extended = Ok (W, regs) →
  simple_root W j =
    if bool_decide (j ∈ index_set rs) then
      let res := sum_of_terms
                   (map (λ t, (t.1, of_int t.2)) (dynkin_column rs j)) in
      Ok (if extended && is_special_node (cartan_type rs) j
          then add res (monomial delta) else res)
    else Raise (ValueError (not_in_index_set j)).
Proof.
  intros HW.
  apply WeightSpace_init_Ok, init_module_Ok in HW as (Hrs & Hext & _ & Haff).
  unfold simple_root, index_set_of, cartan_type_of. rewrite Hrs, Hext.
  case_bool_decide; cbn [negb]; [|done].
  destruct extended; cbn [andb bind]; [|done].
  specialize (Haff eq_refl).
  destruct (cartan_type rs) as [s|]; [|done]. cbn.
  by case_bool_decide.
Qed.

(** X1.  For a space built by the constructor, what [fundamental_weight]
    returns is an element of that space: it stores no zero coefficient
    and its keys are basis keys.  (On a space that is not extended,
    ["delta"] is no basis key, and [fundamental_weight("delta")] is the
    zero element.) *)
Theorem fundamental_weight_element (rs : RootSystem K) (extended : bool)
    (W : WeightSpace K) (regs : list (Coercion K)) (i : key)
    (v : gmap key K) :
  WeightSpace_init rs extended = Ok (W, regs) →
  fundamental_weight W i = Ok v →
  normal v ∧ ∀ k, k ∈ dom v → k ∈ basis_keys W.
Proof.
  intros HW.
  apply WeightSpace_init_Ok, init_module_Ok in HW as (Hrs & Hext & Hkeys & _).
  rewrite fundamental_weight_unfold. unfold is_extended, index_set_of.
  rewrite Hrs, Hext, Hkeys.
  case_bool_decide as Hd.
  - subst i. destruct (is_affine _); [|done].
    destruct extended; intros [= <-].
    + split; [apply normal_monomial|]. intros k ->%dom_monomial.
      apply elem_of_app. right. by left.
    + split; [apply normal_zero|]. intros k. unfold zero.
      by rewrite dom_empty_L.
  - case_bool_decide as Hi; [|done]. intros [= <-].
    split; [apply normal_monomial|]. intros k ->%dom_monomial.
    destruct extended; [apply elem_of_app; by left|done].
Qed.

Lemma simple_root_in_space (rs : RootSystem K) (extended : bool)
    (W : WeightSpace K) (regs : list (Coercion K)) (j : key)
    (v : gmap key K) :
  WeightSpace_init rs extended = Ok (W, regs) →
  Forall (λ t, t.1 ∈ index_set rs) (dynkin_column rs j) →
  simple_root W j = Ok v →
  normal v ∧ ∀ k, k ∈ dom v → k ∈ basis_keys W.
Proof.
  intros HW Hcol. rewrite (simple_root_unfold _ _ _ _ _ HW).
  apply WeightSpace_init_Ok, init_module_Ok in HW as (_ & _ & Hkeys & _).
  rewrite Hkeys. case_bool_decide; [|done]. cbn zeta.
  set (res := sum_of_terms _).
  assert (Hres : ∀ k, k ∈ dom res → k ∈ index_set rs).
  { intros k Hk. apply dom_sum_of_terms in Hk.
    rewrite map_map in Hk. cbn [fst] in Hk.
    apply list_elem_of_In, in_map_iff in Hk as (t & <- & Ht).
    apply (proj1 (Forall_forall _ _) Hcol). by apply list_elem_of_In. }
  destruct extended; cbn [andb].
  - destruct (is_special_node _ _); intros [= <-].
    + split; [apply normal_add; [apply normal_sum_of_terms
                                |apply normal_monomial]|].
      intros k [Hk|Hk]%dom_add; apply elem_of_app.
      * left. by apply Hres.
      * right. apply dom_monomial in Hk as ->. by left.
    + split; [apply normal_sum_of_terms|].
      intros k Hk. apply elem_of_app. left. by apply Hres.
  - intros [= <-]. split; [apply normal_sum_of_terms|done].
Qed.


(** X3.  The coefficients of [simple_root(j)] are given by column [j] of the
    Cartan matrix: the coefficient at [i] is the sum of the entries of
    the column at [i], plus one at ["delta"] when the space is extended
    and [j] is the special node. *)
Theorem simple_root_coefficients (rs : RootSystem K) (extended : bool)
    (W : WeightSpace K) (regs : list (Coercion K)) (j : key)
    (v : gmap key K) (i : key) :
  WeightSpace_init rs extended = Ok (W, regs) →
  simple_root W j = Ok v →
  coef v i
  = radd
      (py_sum (map (λ t, if decide (t.1 = i) then of_int t.2 else rzero)
                   (dynkin_column rs j)) rzero)
      (if extended && is_special_node (cartan_type rs) j
          && bool_decide (i = delta)
       then rone else rzero).
Proof.
  intros HW. rewrite (simple_root_unfold _ _ _ _ _ HW).
  case_bool_decide; [|done]. cbn zeta. intros [= <-].
  assert (Hres : coef (sum_of_terms (map (λ t, (t.1, of_int t.2))
                                         (dynkin_column rs j))) i
                 = py_sum (map (λ t, if decide (t.1 = i) then of_int t.2
                                     else rzero) (dynkin_column rs j)) rzero).
  { by rewrite coef_sum_of_terms, map_map. }
  destruct (extended && is_special_node (cartan_type rs) j); cbn [andb].
  - rewrite coef_add, Hres, coef_monomial.
    case_bool_decide; [rewrite decide_True by done|rewrite decide_False by done];
      done.
  - rewrite Hres. ring.
Qed.

(** X4.  For a space built by the constructor, the basis keys are the index
    set followed by the keys of [basis_extension()], and each basis
    element of the extension is the fundamental weight of its key. *)
Theorem basis_extension_basis_keys (rs : RootSystem K) (extended : bool)
    (W : WeightSpace K) (regs : list (Coercion K)) :
  WeightSpace_init rs extended = Ok (W, regs) →
  basis_keys W = index_set rs ++ map fst (basis_extension W)
  ∧ Forall (λ e, fundamental_weight W e.1 = Ok e.2) (basis_extension W).
Proof.
  intros HW.
  apply WeightSpace_init_Ok, init_module_Ok in HW as (Hrs & Hext & Hkeys & Haff).
  unfold basis_extension, is_extended. rewrite Hkeys, Hext.
  destruct extended; cbn [map fst].
  - split; [done|]. apply Forall_singleton. cbn [fst snd].
    rewrite fundamental_weight_unfold. unfold cartan_type_of, is_extended.
    by rewrite Hrs, Hext, (Haff eq_refl).
  - split; [by rewrite app_nil_r|]. apply Forall_nil_2.
Qed.
End Elements.

(** ** Linearity and locality of the scalar product *)

Section ScalarFacts.
Context {K : Type} `{BaseRing K}.

Add Ring scalar_facts_ring : ring_laws.

Lemma py_sum_map_add {A} (f g : A → K) (l : list A) :
  py_sum (map (λ a, radd (f a) (g a)) l) rzero
  = radd (py_sum (map f l) rzero) (py_sum (map g l) rzero).
Proof.
  induction l as [|a l IH]; cbn [map].
  - cbn. ring.
  - rewrite !py_sum_cons, IH. ring.
Qed.

Lemma py_sum_map_scale {A} (c : K) (f : A → K) (l : list A) :
  py_sum (map (λ a, rmul c (f a)) l) rzero
  = rmul c (py_sum (map f l) rzero).
Proof.
  induction l as [|a l IH]; cbn [map].
  - cbn. ring.
  - rewrite !py_sum_cons, IH. ring.
Qed.

Lemma items_dom (y : gmap key K) (t : key * K) : t ∈ items y → t.1 ∈ dom y.
Proof.
  destruct t as [k c]. unfold items. intros Ht%elem_of_map_to_list.
  apply elem_of_dom. eauto.
Qed.

Lemma scalar_over_other_ext (x x' y : gmap key K) :
  (∀ k, k ∈ dom y → coef x k = coef x' k) →
  scalar_over_other x y rzero = scalar_over_other x' y rzero.
Proof.
  intros Hxx'. unfold scalar_over_other. apply py_sum_map_ext.
  intros t Ht. by rewrite (Hxx' t.1) by (by apply items_dom).
Qed.

Lemma scalar_unfold_other (W : WeightSpace K) (x : gmap key K)
    (y : Element K) :
  scalar W x y =
    if contains (coroot_lattice W) y || contains (coroot_space W) y
    then Ok (scalar_over_other x (monomial_coefficients y) rzero)
    else Raise (ValueError not_in_coroot_space).
Proof. by rewrite scalar_unfold, scalar_over_other_pairing. Qed.

Lemma scalar_Ok (W : WeightSpace K) (x : gmap key K) (y : Element K) (s : K) :
  scalar W x y = Ok s →
  contains (coroot_lattice W) y || contains (coroot_space W) y = true
  ∧ s = scalar_over_other x (monomial_coefficients y) rzero.
Proof.
  rewrite scalar_unfold_other.
  destruct (contains (coroot_lattice W) y || contains (coroot_space W) y);
    [|done].
  by intros [= <-].
Qed.

(** X5.  [scalar] reads its first operand only at the keys of
    [lambdacheck]: two elements with the same coefficients at those keys
    have the same scalar product with it (or are rejected alike). *)
Theorem scalar_depends_on_keys_of_other (W : WeightSpace K)
    (x x' : gmap key K) (y : Element K) :
  (∀ k, k ∈ dom (monomial_coefficients y) → coef x k = coef x' k) →
  scalar W x y = scalar W x' y.
Proof.
  intros Hxx'. rewrite !scalar_unfold_other.
  by rewrite (scalar_over_other_ext x x' _ Hxx').
Qed.

(** X6.  [scalar] is linear in its first operand: the scalar product of a
    sum is the sum of the scalar products, and a scalar multiple comes
    out as a factor. *)
Theorem scalar_linear (W : WeightSpace K) (x x' : gmap key K)
    (y : Element K) (s s' : K) :
  scalar W x y = Ok s →
  scalar W x' y = Ok s' →
  scalar W (add x x') y = Ok (radd s s')
  ∧ ∀ c, scalar W (smul c x) y = Ok (rmul c s).
Proof.
  intros [Hy ->]%scalar_Ok [_ ->]%scalar_Ok.
  rewrite scalar_unfold_other, Hy. split.
  - f_equal. unfold scalar_over_other. rewrite <- py_sum_map_add.
    apply py_sum_map_ext. intros t _. rewrite coef_add. ring.
  - intros c. rewrite scalar_unfold_other, Hy. f_equal.
    unfold scalar_over_other. rewrite <- py_sum_map_scale.
    apply py_sum_map_ext. intros t _. rewrite coef_smul. ring.
Qed.

Lemma scalar_over_other_monomial (x : gmap key K) (j : key) :
  scalar_over_other x (monomial j) rzero = coef x j.
Proof.
  unfold scalar_over_other, items, monomial.
  rewrite map_to_list_singleton. cbn. ring.
Qed.

(** X7.  The scalar product with an element of the coroot lattice or space
    reads coefficients: a basis monomial [monomial(i)] of the weight
    space picks the coefficient of [lambdacheck] at [i], and a
    [lambdacheck] that is the basis monomial for [j] picks the
    coefficient of the first operand at [j]. *)
Theorem scalar_reads_coefficients (W : WeightSpace K) (x : gmap key K)
    (y : Element K) (i : key) :
  contains (coroot_lattice W) y || contains (coroot_space W) y = true →
  scalar W (monomial i) y = Ok (coef (monomial_coefficients y) i)
  ∧ (∀ j, monomial_coefficients y = monomial j →
          scalar W x y = Ok (coef x j)).
Proof.
  intros Hy. split.
  - rewrite scalar_unfold, Hy, <- scalar_over_self_pairing. f_equal.
    unfold scalar_over_self, items, monomial.
    rewrite map_to_list_singleton. cbn. ring.
  - intros j Hj. rewrite scalar_unfold_other, Hy, Hj.
    by rewrite scalar_over_other_monomial.
Qed.

(** X8.  Dominance in terms of the scalar product: an element is dominant
    if and only if its scalar product with the basis monomial of the
    coroot lattice at every vertex is greater than or equal to zero. *)
Theorem is_dominant_scalar (W : WeightSpace K) (x : gmap key K) :
  is_dominant W x = true
  ↔ ∀ j, j ∈ index_set_of W →
      ∃ c, scalar W x {| parent := coroot_lattice W;
                         monomial_coefficients := monomial j |} = Ok c
           ∧ rgeb c rzero = true.
Proof.
  assert (Hs : ∀ j, scalar W x {| parent := coroot_lattice W;
                                  monomial_coefficients := monomial j |}
                    = Ok (coef x j)).
  { intros j. rewrite scalar_unfold_other. unfold contains. cbn.
    rewrite bool_decide_eq_true_2 by done. cbn.
    by rewrite scalar_over_other_monomial. }
  rewrite is_dominant_unfold. split.
  - intros Hx j Hj. exists (coef x j). split; [apply Hs|by apply Hx].
  - intros Hx j Hj. destruct (Hx j Hj) as (c & Hc & Hge).
    rewrite Hs in Hc. by injection Hc as ->.
Qed.
End ScalarFacts.

(** ** Simple roots of the extended space *)

Section Extension.
Context {K : Type} `{BaseRing K}.

Lemma add_zero_r (x : gmap key K) : add x zero = x.
Proof. unfold add, zero. apply (right_id _ _). Qed.

(** Dropping the coordinate at ["delta"] of a simple root of the
    extended space gives the simple root of the space that is not
    extended. *)
Lemma simple_root_extension_delete (rs : RootSystem K)
    (W D : WeightSpace K) (regsW regsD : list (Coercion K)) (j : key)
    (v vd : gmap key K) :
  WeightSpace_init rs false = Ok (W, regsW) →
  WeightSpace_init rs true = Ok (D, regsD) →
  delta ∉ index_set rs →
  Forall (λ t, t.1 ∈ index_set rs) (dynkin_column rs j) →
  simple_root W j = Ok v →
  simple_root D j = Ok vd →
  delete delta vd = v.
Proof.
  intros HW HD Hdelta Hcol Hv Hvd.
  destruct (simple_root_in_space _ _ _ _ _ _ HW Hcol Hv) as [_ Hdom].
  pose proof (WeightSpace_init_Ok _ _ _ _ HW) as HW'.
  apply init_module_Ok in HW' as (_ & _ & Hkeys & _). rewrite Hkeys in Hdom.
  assert (Hnv : delete delta v = v).
  { apply delete_id, not_elem_of_dom. intros Hd. by apply Hdelta, Hdom. }
  rewrite (simple_root_unfold _ _ _ _ _ HW) in Hv.
  rewrite (simple_root_unfold _ _ _ _ _ HD) in Hvd.
  case_bool_decide; [|done]. cbn zeta in *. cbn [andb] in *.
  injection Hv as Hv. rewrite Hv in Hvd.
  destruct (is_special_node _ _); injection Hvd as <-; [|done].
  rewrite delete_add, Hnv. unfold monomial.
  rewrite delete_singleton_eq. apply add_zero_r.
Qed.

(** X9.  The coercion from the extended space maps a simple root of the
    extended space to the simple root of the same index. *)
Theorem quotient_simple_root (rs : RootSystem K)
    (W D : WeightSpace K) (regsW regsD : list (Coercion K)) (j : key)
    (v vd : gmap key K) :
  WeightSpace_init rs false = Ok (W, regsW) →
  WeightSpace_init rs true = Ok (D, regsD) →
  delta ∉ index_set rs →
  Forall (λ t, t.1 ∈ index_set rs) (dynkin_column rs j) →
  simple_root W j = Ok v →
  simple_root D j = Ok vd →
  Forall (λ c, apply_morphism (co_map c) vd = Ok v) regsW
  ∧ regsW ≠ [].
Proof.
  intros HW HD Hdelta Hcol Hv Hvd.
  pose proof (simple_root_extension_delete _ _ _ _ _ _ _ _
                HW HD Hdelta Hcol Hv Hvd) as Hdel.
  destruct (simple_root_in_space _ _ _ _ _ _ HD Hcol Hvd) as [Hn Hdom].
  pose proof (WeightSpace_init_Ok _ _ _ _ HD) as HD'.
  apply init_module_Ok in HD' as (_ & _ & HkeysD & Haff).
  specialize (Haff eq_refl). rewrite HkeysD in Hdom.
  pose proof (WeightSpace_init_Ok _ _ _ _ HW) as HW'.
  apply init_module_Ok in HW' as (Hrs & Hext & _ & _).
  unfold WeightSpace_init in HW.
  destruct (init_module rs false) as [W'|]; cbn [bind] in HW; [|done].
  rewrite Haff in HW. cbn [andb negb] in HW.
  destruct (weight_space_extended rs); cbn [bind] in HW; [|done].
  injection HW as -> <-. split; [|done].
  apply Forall_singleton. cbn [co_map].
  rewrite quotient_closed_form; [by rewrite Hdel| | |done|].
  - unfold cartan_type_of. by rewrite Hrs.
  - done.
  - unfold index_set_of. by rewrite Hrs.
Qed.

(** X10.  Extending the weight space deforms the simple roots without
    affecting their scalar products with the coroots: against an
    element with no coefficient at ["delta"], the simple root of the
    extended space and the simple root of the space that is not
    extended have the same scalar product. *)
Theorem simple_root_extension_scalar (rs : RootSystem K)
    (W D : WeightSpace K) (regsW regsD : list (Coercion K)) (j : key)
    (v vd : gmap key K) (y : Element K) :
  WeightSpace_init rs false = Ok (W, regsW) →
  WeightSpace_init rs true = Ok (D, regsD) →
  simple_root W j = Ok v →
  simple_root D j = Ok vd →
  delta ∉ dom (monomial_coefficients y) →
  scalar D vd y = scalar W v y.
Proof.
  intros HW HD Hv Hvd Hy.
  rewrite (simple_root_unfold _ _ _ _ _ HW) in Hv.
  rewrite (simple_root_unfold _ _ _ _ _ HD) in Hvd.
  apply WeightSpace_init_Ok, init_module_Ok in HW as (HrsW & _).
  apply WeightSpace_init_Ok, init_module_Ok in HD as (HrsD & _).
  rewrite !scalar_unfold_other. unfold coroot_lattice, coroot_space.
  rewrite HrsW, HrsD.
  rewrite (scalar_over_other_ext vd v); [done|].
  intros k Hk. assert (delta ≠ k) as Hne by (by intros <-).
  case_bool_decide; [|done]. cbn zeta in *. cbn [andb] in *.
  injection Hv as <-.
  destruct (is_special_node _ _); injection Hvd as <-; [|done].
  rewrite coef_add, coef_monomial, decide_False by done.
  rewrite (Radd_comm ring_laws). apply (Radd_0_l ring_laws).
Qed.
End Extension.

(** ** The dominant cone *)

Section Dominance.
Context {K : Type} `{BaseRing K}.

(** X11.  In a base ring whose ordering has [0 >= 0] and [1 >= 0], every
    fundamental weight is dominant. *)
Theorem fundamental_weight_dominant (W : WeightSpace K) (i : key)
    (v : gmap key K) :
  rgeb rzero rzero = true →
  rgeb rone rzero = true →
  fundamental_weight W i = Ok v →
  is_dominant W v = true.
Proof.
  intros H0 H1 Hv. apply is_dominant_unfold. intros k _.
  assert (v = zero ∨ v = monomial i) as [->| ->].
  { rewrite fundamental_weight_unfold in Hv.
    destruct (bool_decide (i = delta)) eqn:Hd.
    - apply bool_decide_eq_true_1 in Hd as ->.
      destruct (is_affine _); [|done].
      destruct (is_extended W); injection Hv as <-; auto.
    - destruct (bool_decide (i ∈ index_set_of W)); [|done].
      injection Hv as <-; auto. }
  - unfold zero. by rewrite coef_empty.
  - rewrite coef_monomial. by case_decide.
Qed.

(** X12.  In a base ring whose ordering is compatible with addition, the sum
    of two dominant elements is dominant. *)
Theorem is_dominant_add (W : WeightSpace K) (x y : gmap key K) :
  (∀ a b, rgeb a rzero = true → rgeb b rzero = true →
          rgeb (radd a b) rzero = true) →
  is_dominant W x = true →
  is_dominant W y = true →
  is_dominant W (add x y) = true.
Proof.
  intros Hadd Hx Hy. apply is_dominant_unfold. intros k Hk.
  rewrite coef_add. apply Hadd.
  - by apply (proj1 (is_dominant_unfold W x)).
  - by apply (proj1 (is_dominant_unfold W y)).
Qed.
End Dominance.

(** ** The map to the ambient space *)

Section Ambient.
Context {K : Type} `{BaseRing K}.

Add Ring ambient_ring : ring_laws.

Lemma mapM_Raise {A B} (f : A → result B) (l : list A) (e : exn) :
  mapM f l = Raise e → ∃ a, a ∈ l ∧ f a = Raise e.
Proof.
  induction l as [|a l IH]; [done|]. cbn [mapM].
  destruct (f a) as [b|e'] eqn:Ha; cbn [bind].
  - destruct (mapM f l) as [bs|e'']; cbn [bind]; [done|].
    intros [= ->]. destruct (IH eq_refl) as (a' & Ha' & Hfa').
    exists a'. split; [by right|done].
  - intros [= ->]. exists a. split; [by left|done].
Qed.

(** The ambient fundamental weight at [i], zero where the family has
    none. *)
Lemma basis_value_Ok (basis : gmap key (gmap key K)) (i : key) :
  is_Some (basis !! i) → basis_value basis i = Ok (default zero (basis !! i)).
Proof. intros [v Hv]. unfold basis_value. by rewrite Hv. Qed.

Lemma to_ambient_Ok (W : WeightSpace K) (x : gmap key K) :
  dual_side (root_system W) = false →
  (∀ k, k ∈ dom x →
        is_Some (ambient_fundamental_weights (root_system W) !! k)) →
  to_ambient W x
  = Ok (linear_combination
          (map (λ t, (default zero
                        (ambient_fundamental_weights (root_system W) !! t.1),
                      t.2))
               (items x))).
Proof.
  intros Hside Hkeys. unfold to_ambient, to_ambient_space_morphism.
  rewrite Hside. cbn [bind]. unfold apply_morphism. cbn [on_basis].
  rewrite (mapM_Ok _ (λ t, (default zero
             (ambient_fundamental_weights (root_system W) !! t.1), t.2)));
    [done|].
  intros t Ht. rewrite basis_value_Ok; [done|]. by apply Hkeys, items_dom.
Qed.

Lemma to_ambient_Raise (W : WeightSpace K) (x : gmap key K) (e : exn) :
  dual_side (root_system W) = false →
  to_ambient W x = Raise e →
  ∃ k, e = KeyError k ∧ k ∈ dom x
       ∧ ambient_fundamental_weights (root_system W) !! k = None.
Proof.
  intros Hside. unfold to_ambient, to_ambient_space_morphism.
  rewrite Hside. cbn [bind]. unfold apply_morphism. cbn [on_basis].
  destruct (mapM _ (items x)) as [images|e'] eqn:Hm; cbn [bind]; [done|].
  intros [= ->]. apply mapM_Raise in Hm as (t & Ht & Hf).
  unfold basis_value in Hf.
  destruct (ambient_fundamental_weights (root_system W) !! t.1) eqn:Hb;
    cbn [bind] in Hf; [done|].
  injection Hf as <-. exists t.1. split; [done|]. split; [|done].
  by apply items_dom.
Qed.

Lemma to_ambient_defined (W : WeightSpace K) (x : gmap key K) :
  dual_side (root_system W) = false →
  (∀ k, k ∈ dom x →
        is_Some (ambient_fundamental_weights (root_system W) !! k)) →
  ∃ v, to_ambient W x = Ok v.
Proof. intros Hside Hkeys. rewrite to_ambient_Ok by done. eauto. Qed.

(** X13.  The failures of [to_ambient()]: on the dual side it raises
    [TypeError] for every element; on the direct side it returns when
    every key of the element has a fundamental weight in the ambient
    space, and otherwise raises [KeyError] at a key of the element that
    has none; the zero element is mapped to zero. *)
Theorem to_ambient_failures (W : WeightSpace K) (x : gmap key K) :
  if dual_side (root_system W)
  then to_ambient W x = Raise (TypeError no_map_from_coweight)
  else
    ((∀ k, k ∈ dom x →
           is_Some (ambient_fundamental_weights (root_system W) !! k)) →
     ∃ v, to_ambient W x = Ok v)
    ∧ (∀ e, to_ambient W x = Raise e →
         ∃ k, e = KeyError k ∧ k ∈ dom x
              ∧ ambient_fundamental_weights (root_system W) !! k = None)
    ∧ to_ambient W zero = Ok zero.
Proof.
  destruct (dual_side (root_system W)) eqn:Hside.
  - unfold to_ambient, to_ambient_space_morphism. by rewrite Hside.
  - split; [|split].
    + intros Hkeys. rewrite to_ambient_Ok by done. eauto.
    + intros e. by apply to_ambient_Raise.
    + rewrite to_ambient_Ok; [done|done|].
      intros k. unfold zero. by rewrite dom_empty_L.
Qed.
End Ambient.

Section AmbientLinear.
Context {K : Type} `{BaseRing K}.

Add Ring ambient_linear_ring : ring_laws.

Lemma py_sum_union_zero (S D : gset key) (h : key → K) :
  (∀ i, i ∈ D → i ∉ S → h i = rzero) →
  py_sum (map h (elements (S ∪ D))) rzero
  = py_sum (map h (elements S)) rzero.
Proof.
  induction D as [|i D Hi IH] using set_ind_L; intros Hh.
  - by rewrite (right_id_L ∅ (∪)).
  - destruct (decide (i ∈ S)) as [HiS|HiS].
    + replace (S ∪ ({[i]} ∪ D)) with (S ∪ D) by set_solver.
      apply IH. intros k Hk. apply Hh. set_solver.
    + replace (S ∪ ({[i]} ∪ D)) with ({[i]} ∪ (S ∪ D)) by set_solver.
      rewrite (py_sum_perm _ (map h (i :: elements (S ∪ D))))
        by (apply Permutation_map, elements_union_singleton; set_solver).
      rewrite map_cons, py_sum_cons, IH, (Hh i); [ring|set_solver|done|].
      intros k Hk. apply Hh. set_solver.
Qed.

Lemma py_sum_items_dom (x : gmap key K) (G : key → K) :
  py_sum (map (λ t, rmul t.2 (G t.1)) (items x)) rzero
  = py_sum (map (λ i, rmul (coef x i) (G i)) (elements (dom x))) rzero.
Proof.
  induction x as [|i c m Hi IH] using map_ind.
  - unfold items. by rewrite map_to_list_empty, dom_empty_L, elements_empty.
  - unfold items in *.
    rewrite (py_sum_perm _ (map (λ t, rmul t.2 (G t.1))
                               ((i, c) :: map_to_list m)))
      by (apply Permutation_map; by apply map_to_list_insert).
    rewrite dom_insert_L.
    rewrite (py_sum_perm (map _ (elements ({[i]} ∪ dom m)))
               (map (λ k, rmul (coef (<[i:=c]> m) k) (G k))
                    (i :: elements (dom m))))
      by (apply Permutation_map, elements_union_singleton;
          by apply not_elem_of_dom).
    rewrite !map_cons, !py_sum_cons, IH, coef_insert. cbn [fst snd].
    rewrite decide_True by done. f_equal.
    apply py_sum_map_ext. intros k Hk. rewrite coef_insert.
    case_decide as Hik; [|done]. subst k.
    apply elem_of_elements, elem_of_dom in Hk as [? Hk]. congruence.
Qed.

Lemma py_sum_items_within (x : gmap key K) (T : gset key) (G : key → K) :
  dom x ⊆ T →
  py_sum (map (λ t, rmul t.2 (G t.1)) (items x)) rzero
  = py_sum (map (λ i, rmul (coef x i) (G i)) (elements T)) rzero.
Proof.
  intros HT. rewrite py_sum_items_dom.
  replace T with (dom x ∪ T) by set_solver.
  symmetry. apply py_sum_union_zero.
  intros i _ Hi. rewrite coef_absent by done. ring.
Qed.

Lemma mapM_Ok_inv {A B} (f : A → result B) (l : list A) (bs : list B) (a : A) :
  mapM f l = Ok bs → a ∈ l → ∃ b, f a = Ok b.
Proof.
  revert bs. induction l as [|a' l IH]; intros bs; [by intros _ ?%elem_of_nil|].
  cbn [mapM]. destruct (f a') as [b|] eqn:Ha; cbn [bind]; [|done].
  destruct (mapM f l) as [bs'|]; cbn [bind]; [|done].
  intros _ [->|Hin]%elem_of_cons; [eauto|]. by eapply IH.
Qed.

Lemma to_ambient_Ok_inv (W : WeightSpace K) (x v : gmap key K) :
  to_ambient W x = Ok v →
  dual_side (root_system W) = false
  ∧ ∀ k, k ∈ dom x →
         is_Some (ambient_fundamental_weights (root_system W) !! k).
Proof.
  unfold to_ambient, to_ambient_space_morphism.
  destruct (dual_side (root_system W)); [done|]. cbn [bind].
  unfold apply_morphism. cbn [on_basis].
  destruct (mapM _ (items x)) as [images|] eqn:Hm; cbn [bind]; [|done].
  intros _. split; [done|]. intros k [c Hc]%elem_of_dom.
  destruct (mapM_Ok_inv _ _ _ (k, c) Hm) as [b Hb].
  { by apply elem_of_map_to_list. }
  cbn [fst snd] in Hb. unfold basis_value in Hb.
  destruct (ambient_fundamental_weights (root_system W) !! k); [eauto|done].
Qed.

Lemma coef_to_ambient (W : WeightSpace K) (x v : gmap key K) (T : gset key)
    (k : key) :
  to_ambient W x = Ok v →
  dom x ⊆ T →
  normal v
  ∧ coef v k
    = py_sum
        (map (λ i, rmul (coef x i)
                     (coef (default zero
                              (ambient_fundamental_weights (root_system W) !! i))
                           k))
             (elements T)) rzero.
Proof.
  intros Hv HT. pose proof (to_ambient_Ok_inv _ _ _ Hv) as [Hside Hkeys].
  rewrite to_ambient_Ok in Hv by done. injection Hv as <-.
  split; [apply normal_linear_combination|].
  rewrite coef_linear_combination, map_map. cbn [fst snd].
  by rewrite <- (py_sum_items_within x T
                   (λ i, coef (default zero
                            (ambient_fundamental_weights (root_system W) !! i))
                          k)).
Qed.

(** X14.  [to_ambient()] is linear: where it maps [x] and [y], it maps their
    sum to the sum of their images and a scalar multiple of [x] to the
    multiple of its image. *)
Theorem to_ambient_linear (W : WeightSpace K) (x y vx vy : gmap key K) :
  to_ambient W x = Ok vx →
  to_ambient W y = Ok vy →
  to_ambient W (add x y) = Ok (add vx vy)
  ∧ ∀ c, to_ambient W (smul c x) = Ok (smul c vx).
Proof.
  intros Hx Hy.
  pose proof (to_ambient_Ok_inv _ _ _ Hx) as [Hside Hkx].
  pose proof (to_ambient_Ok_inv _ _ _ Hy) as [_ Hky].
  assert (Hdadd : dom (add x y) ⊆ dom x ∪ dom y).
  { intros k Hk. apply dom_add in Hk. set_solver. }
  assert (Hdx : dom x ⊆ dom x ∪ dom y) by set_solver.
  assert (Hdy : dom y ⊆ dom x ∪ dom y) by set_solver.
  split.
  - destruct (to_ambient_defined W (add x y)) as [v Hv].
    { done. }
    { intros k [?|?]%dom_add; auto. }
    rewrite Hv. f_equal.
    apply element_ext.
    + by apply (coef_to_ambient W _ _ _ delta Hv Hdadd).
    + apply normal_add.
      * by apply (coef_to_ambient W _ _ _ delta Hx Hdx).
      * by apply (coef_to_ambient W _ _ _ delta Hy Hdy).
    + intros k. rewrite coef_add.
      rewrite (proj2 (coef_to_ambient W _ _ _ k Hv Hdadd)).
      rewrite (proj2 (coef_to_ambient W _ _ _ k Hx Hdx)).
      rewrite (proj2 (coef_to_ambient W _ _ _ k Hy Hdy)).
      rewrite <- py_sum_map_add. apply py_sum_map_ext.
      intros i _. rewrite coef_add. ring.
  - intros c.
    assert (Hds : dom (smul c x) ⊆ dom x).
    { intros k Hk. by apply dom_smul in Hk. }
    destruct (to_ambient_defined W (smul c x)) as [v Hv].
    { done. }
    { intros k ?%dom_smul. auto. }
    rewrite Hv. f_equal.
    apply element_ext.
    + by apply (coef_to_ambient W _ _ _ delta Hv Hds).
    + apply normal_smul.
    + intros k. rewrite coef_smul.
      rewrite (proj2 (coef_to_ambient W _ _ _ k Hv Hds)).
      rewrite (proj2 (coef_to_ambient W _ _ _ k Hx (reflexivity _))).
      rewrite <- py_sum_map_scale. apply py_sum_map_ext.
      intros i _. rewrite coef_smul. ring.
Qed.
End AmbientLinear.

(** ** Instances on the sample root systems *)

Lemma fundamental_weight_element_witness :
  let W := Samples.space Samples.A2_1 false in
  fundamental_weight W delta = Ok zero
  ∧ normal (zero : gmap key Z)
  ∧ ∀ k, k ∈ dom (zero : gmap key Z) → k ∈ basis_keys W.
Proof.
  intros W. split; [reflexivity|].
  exact (fundamental_weight_element Samples.A2_1 false W _ delta zero
           eq_refl eq_refl).
Defined.


Lemma simple_root_coefficients_witness :
  let W := Samples.space Samples.A3_1 true in
  let v := <[delta := 1]> (Samples.vec [(0, 2); (1, -1); (3, -1)]) in
  coef v (KInt 1) = -1 ∧ coef v delta = 1.
Proof.
  intros W v.
  assert (simple_root W (KInt 0) = Ok v) as Hv by (vm_compute; reflexivity).
  split.
  - rewrite (simple_root_coefficients Samples.A3_1 true W [] (KInt 0) v
               (KInt 1) eq_refl Hv).
    reflexivity.
  - rewrite (simple_root_coefficients Samples.A3_1 true W [] (KInt 0) v
               delta eq_refl Hv).
    reflexivity.
Defined.

Lemma basis_extension_basis_keys_witness :
  let W := Samples.space Samples.A3_1 true in
  basis_keys W = index_set Samples.A3_1 ++ map fst (basis_extension W)
  ∧ Forall (λ e, fundamental_weight W e.1 = Ok e.2) (basis_extension W).
Proof.
  intros W.
  exact (basis_extension_basis_keys Samples.A3_1 true W [] eq_refl).
Defined.

Lemma scalar_depends_on_keys_of_other_witness :
  let W := Samples.space Samples.A3_1 true in
  let x := Samples.vec [(0, 2); (1, -1)] in
  let y := {| parent := RootLattice true;
              monomial_coefficients := Samples.vec [(0, 1); (1, 1)] |} in
  scalar W x y = scalar W (<[delta := 5]> x) y
  ∧ scalar W x y = Ok 1.
Proof.
  intros W x y. split; [|reflexivity].
  apply (scalar_depends_on_keys_of_other W x (<[delta := 5]> x) y).
  intros k Hk. unfold coef. rewrite lookup_insert_ne; [done|].
  intros <-. revert Hk.
  change (delta ∉ dom (monomial_coefficients y)). by_evaluation.
Defined.

Lemma scalar_linear_witness :
  let W := Samples.space Samples.A3_1 false in
  let x := Samples.vec [(0, 2); (1, -1)] in
  let x' := Samples.vec [(1, 1); (2, 3)] in
  let y := {| parent := RootLattice true;
              monomial_coefficients := Samples.vec [(0, 1); (2, 1)] |} in
  scalar W (add x x') y = Ok (2 + 3)
  ∧ ∀ c, scalar W (smul c x) y = Ok (c * 2).
Proof.
  intros W x x' y.
  exact (scalar_linear W x x' y 2 3 eq_refl eq_refl).
Defined.

Lemma scalar_reads_coefficients_witness :
  let W := Samples.space Samples.A3_1 false in
  let y := {| parent := RootLattice true;
              monomial_coefficients := Samples.vec [(0, 4); (2, 7)] |} in
  scalar W (monomial (KInt 2)) y = Ok 7.
Proof.
  intros W y.
  exact (proj1 (scalar_reads_coefficients W zero y (KInt 2) eq_refl)).
Defined.

Lemma quotient_simple_root_witness :
  let W := Samples.space Samples.A3_1 false in
  let q := {| on_basis := fundamental_weight W |} in
  apply_morphism q (<[delta := 1]> (Samples.vec [(0, 2); (1, -1); (3, -1)]))
  = Ok (Samples.vec [(0, 2); (1, -1); (3, -1)]).
Proof.
  intros W q.
  assert (simple_root W (KInt 0) = Ok (Samples.vec [(0, 2); (1, -1); (3, -1)]))
    as Hv by (vm_compute; reflexivity).
  assert (simple_root (Samples.space Samples.A3_1 true) (KInt 0)
          = Ok (<[delta := 1]> (Samples.vec [(0, 2); (1, -1); (3, -1)])))
    as Hvd by (vm_compute; reflexivity).
  destruct (quotient_simple_root Samples.A3_1 W
              (Samples.space Samples.A3_1 true) _ [] (KInt 0) _ _
              eq_refl eq_refl ltac:(by_evaluation) ltac:(by_evaluation)
              Hv Hvd) as [Hq _].
  exact (Forall_inv Hq).
Defined.

Lemma simple_root_extension_scalar_witness :
  let W := Samples.space Samples.A3_1 false in
  let D := Samples.space Samples.A3_1 true in
  let y := {| parent := RootLattice true;
              monomial_coefficients := Samples.vec [(0, 1); (1, 1)] |} in
  scalar D (<[delta := 1]> (Samples.vec [(0, 2); (1, -1); (3, -1)])) y
  = scalar W (Samples.vec [(0, 2); (1, -1); (3, -1)]) y.
Proof.
  intros W D y.
  assert (simple_root W (KInt 0) = Ok (Samples.vec [(0, 2); (1, -1); (3, -1)]))
    as Hv by (vm_compute; reflexivity).
  assert (simple_root D (KInt 0)
          = Ok (<[delta := 1]> (Samples.vec [(0, 2); (1, -1); (3, -1)])))
    as Hvd by (vm_compute; reflexivity).
  exact (simple_root_extension_scalar Samples.A3_1 W D _ [] (KInt 0) _ _ y
           eq_refl eq_refl Hv Hvd ltac:(by_evaluation)).
Defined.

Lemma fundamental_weight_dominant_witness :
  is_dominant (Samples.space Samples.A3 false) (monomial (KInt 2)) = true.
Proof.
  exact (fundamental_weight_dominant (Samples.space Samples.A3 false)
           (KInt 2) (monomial (KInt 2)) eq_refl eq_refl eq_refl).
Defined.

Lemma is_dominant_add_witness :
  let W := Samples.space Samples.A3 false in
  is_dominant W (add (Samples.vec [(1, 1)]) (Samples.vec [(1, 2); (3, 1)]))
  = true.
Proof.
  intros W.
  apply (is_dominant_add W (Samples.vec [(1, 1)])
           (Samples.vec [(1, 2); (3, 1)])); [|reflexivity|reflexivity].
  intros a b Ha Hb. apply Z.leb_le.
  apply Z.leb_le in Ha. apply Z.leb_le in Hb.
  change (0 <= a + b)%Z. change (0 <= a)%Z in Ha. change (0 <= b)%Z in Hb.
  lia.
Defined.

Lemma to_ambient_failures_witness :
  to_ambient (Samples.space Samples.A3_dual false) (monomial (KInt 1))
  = Raise (TypeError no_map_from_coweight)
  ∧ (∃ v, to_ambient (Samples.space Samples.A3 false) (monomial (KInt 1))
          = Ok v)
  ∧ to_ambient (Samples.space Samples.A3 false) (monomial delta)
    = Raise (KeyError delta).
Proof.
  split; [|split].
  - exact (to_ambient_failures (Samples.space Samples.A3_dual false)
             (monomial (KInt 1))).
  - apply (to_ambient_failures (Samples.space Samples.A3 false)
             (monomial (KInt 1))).
    change (set_Forall
              (λ k, is_Some (ambient_fundamental_weights Samples.A3 !! k))
              (dom (monomial (KInt 1) : gmap key Z))).
    by_evaluation.
  - reflexivity.
Defined.

Lemma to_ambient_linear_witness :
  let W := Samples.space Samples.A3 false in
  to_ambient W (add (monomial (KInt 1)) (monomial (KInt 2)))
  = Ok (add (Samples.vec [(0, 1)]) (Samples.vec [(0, 1); (1, 1)])).
Proof.
  intros W.
  exact (proj1 (to_ambient_linear W (monomial (KInt 1)) (monomial (KInt 2))
                  _ _ eq_refl eq_refl)).
Defined.

(** ** A vertex that carries the label ["delta"] *)


